(** * LeetSpace front end: the [ApiService] request lifecycle

    A shallow embedding of [frontend/leetspace-frontend/src/lib/api.js]
    (the version with refresh tokens): the token store kept in the
    service fields and in [localStorage], the refresh coordinator
    ([refreshAccessToken]) and the request executor ([request] and its
    inner [makeRequest]).

    JavaScript is run to completion between two suspension points, so an
    asynchronous method is cut at its [await]s: the part up to the first
    [fetch] is a state transformer, and each continuation is a state
    transformer too, run when the transport settles the call it waits
    for.  [console.error] is not modelled (it has no effect on the
    service), which is why both arms of the last [catch] of
    [makeRequest] coincide here. *)

From Stdlib Require Import ZArith String Ascii DecimalString.
From stdpp Require Import gmap strings list fin_maps.

Set Warnings "-register-all".

Local Open Scope string_scope.
Local Open Scope Z_scope.
Local Open Scope list_scope.

(** ** JavaScript values *)

(** Numbers are restricted to integers; the fields of a nested object are
    kept in enumeration order. *)
Inductive jsval : Type :=
| JUndefined
| JNull
| JBool (b : bool)
| JNum (n : Z)
| JStr (s : string)
| JArr (xs : list jsval)
| JObj (fields : list (string * jsval)).

Abbreviation jsobj := (list (string * jsval)).

(** [if (v)] *)
Definition truthy (v : jsval) : bool :=
  match v with
  | JUndefined | JNull => false
  | JBool b => b
  | JNum n => negb (n =? 0)
  | JStr s => negb (String.eqb s "")
  | JArr _ | JObj _ => true
  end.

(** [v === null] *)
Definition is_null (v : jsval) : bool :=
  match v with JNull => true | _ => false end.

(** [v !== null && v !== undefined] *)
Definition not_nullish (v : jsval) : bool :=
  match v with JNull | JUndefined => false | _ => true end.

(** A parameter declared [p = d] takes [d] when the argument is omitted
    or [undefined]. *)
Definition default_arg (d v : jsval) : jsval :=
  match v with JUndefined => d | _ => v end.

Definition Z_to_string (n : Z) : string :=
  NilZero.string_of_int (Z.to_int n).

Fixpoint join (sep : string) (l : list string) : string :=
  match l with
  | [] => ""
  | [s] => s
  | s :: l' => s +:+ sep +:+ join sep l'
  end.

(** [String(v)], also what a template literal does to [${v}]. *)
Fixpoint ToString (v : jsval) : string :=
  match v with
  | JUndefined => "undefined"
  | JNull => "null"
  | JBool true => "true"
  | JBool false => "false"
  | JNum n => Z_to_string n
  | JStr s => s
  | JArr xs =>
      join "," (List.map (fun x => if not_nullish x then ToString x else "") xs)
  | JObj _ => "[object Object]"
  end.

(** *** Objects as ordered field lists *)

Fixpoint obj_get (k : string) (o : jsobj) : jsval :=
  match o with
  | [] => JUndefined
  | (k', v) :: o' => if String.eqb k' k then v else obj_get k o'
  end.

Fixpoint obj_has (k : string) (o : jsobj) : bool :=
  match o with
  | [] => false
  | (k', _) :: o' => String.eqb k' k || obj_has k o'
  end.

(** [o[k] = v]: an existing field keeps its place, a new one goes last. *)
Fixpoint obj_set (k : string) (v : jsval) (o : jsobj) : jsobj :=
  match o with
  | [] => [(k, v)]
  | (k', v') :: o' =>
      if String.eqb k' k then (k', v) :: o' else (k', v') :: obj_set k v o'
  end.

(** [delete o[k]] *)
Fixpoint obj_delete (k : string) (o : jsobj) : jsobj :=
  match o with
  | [] => []
  | (k', v') :: o' =>
      if String.eqb k' k then obj_delete k o' else (k', v') :: obj_delete k o'
  end.

(** [{...target, ...source}]: the own fields of [source], in order, are
    assigned onto [target]. *)
Definition obj_spread (target source : jsobj) : jsobj :=
  fold_left (fun acc kv => obj_set (fst kv) (snd kv) acc) source target.

(** [v[k]] for a name [k] that no prototype defines: reading a field of
    [null] or [undefined] throws a TypeError ([None]); primitives and
    arrays answer [undefined]. *)
Definition GetV (v : jsval) (k : string) : option jsval :=
  match v with
  | JUndefined | JNull => None
  | JObj o => Some (obj_get k o)
  | _ => Some JUndefined
  end.

Fixpoint index_from (i : nat) (xs : list jsval) : jsobj :=
  match xs with
  | [] => []
  | x :: xs' => (Z_to_string (Z.of_nat i), x) :: index_from (S i) xs'
  end.

Fixpoint chars (s : string) : list jsval :=
  match s with
  | EmptyString => []
  | String c s' => JStr (String c EmptyString) :: chars s'
  end.

(** [Object.entries(v)] for a [v] that is not nullish. *)
Definition Object_entries (v : jsval) : jsobj :=
  match v with
  | JObj o => o
  | JArr xs => index_from 0 xs
  | JStr s => index_from 0 (chars s)
  | _ => []
  end.

(** ** Query strings *)

Definition hex_digit (n : N) : ascii :=
  if (n <? 10)%N then ascii_of_N (48 + n) else ascii_of_N (55 + n).

(** The bytes that the [application/x-www-form-urlencoded] serializer
    leaves as they are: ASCII letters and digits, [*], [-], [.] and [_]. *)
Definition form_safe (c : ascii) : bool :=
  let n := N_of_ascii c in
  ((n =? 42) || (n =? 45) || (n =? 46) || (n =? 95)
   || ((48 <=? n) && (n <=? 57))
   || ((65 <=? n) && (n <=? 90))
   || ((97 <=? n) && (n <=? 122)))%N.

Fixpoint urlencode (s : string) : string :=
  match s with
  | EmptyString => EmptyString
  | String c s' =>
      if Ascii.eqb c " " then String "+" (urlencode s')
      else if form_safe c then String c (urlencode s')
      else
        let n := N_of_ascii c in
        String "%" (String (hex_digit (n / 16)) (String (hex_digit (n mod 16))
          (urlencode s')))
  end.

(** [new URLSearchParams()] is the empty list, [append] adds at the end. *)
Definition URLSearchParams_append (key : string) (value : jsval)
    (sp : list (string * string)) : list (string * string) :=
  sp ++ [(key, ToString value)].

Definition URLSearchParams_toString (sp : list (string * string)) : string :=
  join "&" (List.map (fun kv => urlencode (fst kv) +:+ "=" +:+ urlencode (snd kv)) sp).

(** The [forEach] over [Object.entries(options.params)]. *)
Definition searchParams_of (params : jsval) : list (string * string) :=
  fold_left
    (fun sp kv =>
       if not_nullish (snd kv) then URLSearchParams_append (fst kv) (snd kv) sp
       else sp)
    (Object_entries params) [].

Definition API_BASE_URL : string := "http://localhost:8000/api".

(** The first lines of [request]: the URL of the call. *)
Definition request_url (endpoint : string) (options : jsobj) : string :=
  let url := API_BASE_URL +:+ endpoint in
  if truthy (obj_get "params" options) then
    let queryString := URLSearchParams_toString (searchParams_of (obj_get "params" options)) in
    if truthy (JStr queryString) then url +:+ "?" +:+ queryString else url
  else url.

(** ** Errors, responses and the state of the page *)

(** What a [throw] carries: an [Error] built by the service (with the
    [status] and [data] fields that [makeRequest] may attach), or an
    exception raised by the runtime. *)
Inductive Thrown : Type :=
| Error (message : string) (status : option Z) (data : option jsval)
| TypeError
| SyntaxError
| FetchFailed (reason : string).

(** What [fetch] settles with: a rejection, or a response with its status
    and its body ([None] when the body is not JSON, so that
    [response.json()] rejects). *)
Inductive FetchResult : Type :=
| NetworkError (reason : string)
| Response (status : Z) (body : option jsval).

(** [response.ok] *)
Definition ok (status : Z) : bool := (200 <=? status) && (status <=? 299).

Inductive Outcome : Type :=
| Resolved (v : jsval)
| Rejected (e : Thrown).

(** One call of [fetch(url, config)]. *)
Record FetchCall : Type := { f_url : string; f_config : jsobj }.

(** Who waits for a [fetch]: the rest of [makeRequest(retryCount)] of the
    logical request [rid], or the [then]/[finally] chain of
    [refreshAccessToken]. *)
Inductive Kont : Type :=
| KFetch (rid : nat) (retryCount : nat)
| KRefresh.

(** The pending refresh: its identity (the number of its [fetch]) and the
    logical requests that [await] it, in the order they started to. *)
Record Promise : Type := { pid : nat; waiters : list nat }.

(** What [makeRequest] closes over: [url] and the [options] reference. *)
Record Call : Type := { c_url : string; c_options : nat }.

Record World : Type := {
  token : jsval;                       (* this.token *)
  refreshToken : jsval;                (* this.refreshToken *)
  refreshPromise : option Promise;     (* this.refreshPromise, None for null *)
  localStorage : gmap string string;
  href : string;                       (* window.location.href *)
  heap : list jsobj;                   (* options and config objects, by reference *)
  net : list (FetchCall * Kont);       (* every fetch issued, oldest first *)
  inflight : list nat;                 (* fetches not settled yet, by position in net *)
  calls : list Call;                   (* logical requests, by request id *)
  results : list (nat * Outcome)       (* settled logical requests *)
}.

Definition set_token v w :=
  {| token := v; refreshToken := refreshToken w; refreshPromise := refreshPromise w;
     localStorage := localStorage w; href := href w; heap := heap w; net := net w;
     inflight := inflight w; calls := calls w; results := results w |}.

Definition set_refreshToken v w :=
  {| token := token w; refreshToken := v; refreshPromise := refreshPromise w;
     localStorage := localStorage w; href := href w; heap := heap w; net := net w;
     inflight := inflight w; calls := calls w; results := results w |}.

Definition set_refreshPromise p w :=
  {| token := token w; refreshToken := refreshToken w; refreshPromise := p;
     localStorage := localStorage w; href := href w; heap := heap w; net := net w;
     inflight := inflight w; calls := calls w; results := results w |}.

Definition set_localStorage ls w :=
  {| token := token w; refreshToken := refreshToken w; refreshPromise := refreshPromise w;
     localStorage := ls; href := href w; heap := heap w; net := net w;
     inflight := inflight w; calls := calls w; results := results w |}.

Definition set_href h w :=
  {| token := token w; refreshToken := refreshToken w; refreshPromise := refreshPromise w;
     localStorage := localStorage w; href := h; heap := heap w; net := net w;
     inflight := inflight w; calls := calls w; results := results w |}.

Definition set_heap h w :=
  {| token := token w; refreshToken := refreshToken w; refreshPromise := refreshPromise w;
     localStorage := localStorage w; href := href w; heap := h; net := net w;
     inflight := inflight w; calls := calls w; results := results w |}.

Definition set_net n w :=
  {| token := token w; refreshToken := refreshToken w; refreshPromise := refreshPromise w;
     localStorage := localStorage w; href := href w; heap := heap w; net := n;
     inflight := inflight w; calls := calls w; results := results w |}.

Definition set_inflight i w :=
  {| token := token w; refreshToken := refreshToken w; refreshPromise := refreshPromise w;
     localStorage := localStorage w; href := href w; heap := heap w; net := net w;
     inflight := i; calls := calls w; results := results w |}.

Definition set_calls c w :=
  {| token := token w; refreshToken := refreshToken w; refreshPromise := refreshPromise w;
     localStorage := localStorage w; href := href w; heap := heap w; net := net w;
     inflight := inflight w; calls := c; results := results w |}.

Definition set_results r w :=
  {| token := token w; refreshToken := refreshToken w; refreshPromise := refreshPromise w;
     localStorage := localStorage w; href := href w; heap := heap w; net := net w;
     inflight := inflight w; calls := calls w; results := r |}.

(** ** Token store *)

Definition getItem (k : string) (w : World) : jsval :=
  match localStorage w !! k with
  | Some s => JStr s
  | None => JNull
  end.

Definition setItem (k : string) (v : jsval) (w : World) : World :=
  set_localStorage (<[k := ToString v]> (localStorage w)) w.

Definition removeItem (k : string) (w : World) : World :=
  set_localStorage (delete k (localStorage w)) w.

(** [new ApiService()] in a page with the given storage and objects. *)
Definition constructor (ls : gmap string string) (objs : list jsobj) : World :=
  let w :=
    {| token := JUndefined; refreshToken := JUndefined; refreshPromise := None;
       localStorage := ls; href := "/"; heap := objs; net := [];
       inflight := []; calls := []; results := [] |} in
  let w := set_token (getItem "access_token" w) w in
  let w := set_refreshToken (getItem "refresh_token" w) w in
  set_refreshPromise None w.

(** [setToken(accessToken, refreshToken = null)] *)
Definition setToken (accessToken refreshToken_arg : jsval) (w : World) : World :=
  let refreshToken := default_arg JNull refreshToken_arg in
  let w := set_token accessToken w in
  let w := if truthy refreshToken then set_refreshToken refreshToken w else w in
  let w :=
    if truthy accessToken then setItem "access_token" accessToken w
    else removeItem "access_token" w in
  if truthy refreshToken then setItem "refresh_token" refreshToken w
  else if is_null refreshToken then removeItem "refresh_token" w
  else w.

Definition clearTokens (w : World) : World :=
  let w := set_token JNull w in
  let w := set_refreshToken JNull w in
  let w := removeItem "access_token" w in
  removeItem "refresh_token" w.

Definition getAuthHeaders (w : World) : jsobj :=
  let headers := [("Content-Type", JStr "application/json")] in
  if truthy (token w)
  then obj_set "Authorization" (JStr ("Bearer " +:+ ToString (token w))) headers
  else headers.


(** The headers of [getAuthHeaders] as a function of the token read. *)
Definition auth_headers (tok : jsval) : jsobj :=
  let headers := [("Content-Type", JStr "application/json")] in
  if truthy tok
  then obj_set "Authorization" (JStr ("Bearer " +:+ ToString tok)) headers
  else headers.

(** ** JSON.stringify *)

Definition dquote : string := String "034"%char EmptyString.
Definition backslash : string := String "092"%char EmptyString.

Definition hex_lower (n : N) : ascii :=
  if (n <? 10)%N then ascii_of_N (48 + n) else ascii_of_N (87 + n).

Definition JSON_escape (c : ascii) : string :=
  let n := N_of_ascii c in
  if (n =? 34)%N then backslash +:+ dquote
  else if (n =? 92)%N then backslash +:+ backslash
  else if (n =? 8)%N then backslash +:+ "b"
  else if (n =? 12)%N then backslash +:+ "f"
  else if (n =? 10)%N then backslash +:+ "n"
  else if (n =? 13)%N then backslash +:+ "r"
  else if (n =? 9)%N then backslash +:+ "t"
  else if (n <? 32)%N then
    backslash +:+ "u00" +:+ String (hex_lower (n / 16)) (String (hex_lower (n mod 16)) "")
  else String c "".

Fixpoint JSON_escape_all (s : string) : string :=
  match s with
  | EmptyString => ""
  | String c s' => JSON_escape c +:+ JSON_escape_all s'
  end.

Definition JSON_quote (s : string) : string :=
  dquote +:+ JSON_escape_all s +:+ dquote.

(** [JSON.stringify(v)] for a [v] other than [undefined]: a field whose
    value is [undefined] is left out, an [undefined] array element is
    written [null]. *)
Fixpoint JSON_stringify (v : jsval) : string :=
  match v with
  | JUndefined | JNull => "null"
  | JBool true => "true"
  | JBool false => "false"
  | JNum n => Z_to_string n
  | JStr s => JSON_quote s
  | JArr xs => "[" +:+ join "," (List.map JSON_stringify xs) +:+ "]"
  | JObj o =>
      "{" +:+
      join ","
        ((fix members (o : jsobj) : list string :=
            match o with
            | [] => []
            | (k, JUndefined) :: o' => members o'
            | (k, x) :: o' => (JSON_quote k +:+ ":" +:+ JSON_stringify x) :: members o'
            end) o)
      +:+ "}"
  end.

(** ** Objects by reference, and the transport *)

Definition deref (r : nat) (w : World) : jsobj := default [] (heap w !! r).

(** An object literal: a fresh cell. *)
Definition alloc (o : jsobj) (w : World) : nat * World :=
  (length (heap w), set_heap (heap w ++ [o]) w).

Definition store (r : nat) (o : jsobj) (w : World) : World :=
  set_heap (<[r := o]> (heap w)) w.

(** [fetch(url, config)]: the call goes out and [k] waits for it. *)
Definition fetch (url : string) (config : jsobj) (k : Kont) (w : World) : World :=
  let id := length (net w) in
  let w := set_net (net w ++ [({| f_url := url; f_config := config |}, k)]) w in
  set_inflight (inflight w ++ [id]) w.

(** ** Refresh coordinator *)

Inductive RefreshResult : Type :=
| RefreshThrows (e : Thrown)
| RefreshPending (p : nat).

Definition refresh_call (w : World) : FetchCall :=
  {| f_url := API_BASE_URL +:+ "/auth/refresh";
     f_config :=
       [("method", JStr "POST");
        ("headers", JObj [("Content-Type", JStr "application/json")]);
        ("body", JStr (JSON_stringify (JObj [("refresh_token", refreshToken w)])))] |}.

(** [refreshAccessToken()], up to the promise it returns. *)
Definition refreshAccessToken (w : World) : RefreshResult * World :=
  if negb (truthy (refreshToken w)) then
    (RefreshThrows (Error "No refresh token available" None None), w)
  else
    match refreshPromise w with
    | Some p => (RefreshPending (pid p), w)
    | None =>
        let id := length (net w) in
        let w := fetch (f_url (refresh_call w)) (f_config (refresh_call w)) KRefresh w in
        (RefreshPending id, set_refreshPromise (Some {| pid := id; waiters := [] |}) w)
    end.

(** The [then] callback of the refresh [fetch]; a rejected [fetch] skips it. *)
Definition refresh_then (r : FetchResult) (w : World) : Outcome * World :=
  match r with
  | NetworkError reason => (Rejected (FetchFailed reason), w)
  | Response status body =>
      if negb (ok status) then (Rejected (Error "Token refresh failed" None None), w)
      else
        match body with
        | None => (Rejected SyntaxError, w)
        | Some data =>
            match GetV data "access_token", GetV data "refresh_token" with
            | Some access_token, Some refresh_token =>
                (Resolved data, setToken access_token refresh_token w)
            | _, _ => (Rejected TypeError, w)
            end
        end
  end.

(** [then] followed by [finally]: how the refresh promise settles. *)
Definition refresh_chain (r : FetchResult) (w : World) : Outcome * World :=
  let '(out, w) := refresh_then r w in
  (out, set_refreshPromise None w).

(** ** Request executor *)

(** [{ headers: <headers>, ...options }] and [delete config.params], as a
    function of the headers' token and of the fields of [options]. *)
Definition config_for (tok : jsval) (options : jsobj) : jsobj :=
  obj_delete "params" (obj_spread [("headers", JObj (auth_headers tok))] options).

(** [makeRequest(retryCount)] of request [rid], up to its [fetch]. *)
Definition makeRequest (rid retryCount : nat) (w : World) : World :=
  match calls w !! rid with
  | None => w
  | Some c =>
      let '(config, w) :=
        alloc (obj_spread [("headers", JObj (getAuthHeaders w))] (deref (c_options c) w)) w in
      let w := store config (obj_delete "params" (deref config w)) w in
      fetch (c_url c) (deref config w) (KFetch rid retryCount) w
  end.

(** The promise of request [rid] settles. *)
Definition finish (rid : nat) (out : Outcome) (w : World) : World :=
  set_results (results w ++ [(rid, out)]) w.

Definition session_expired : Thrown :=
  Error "Session expired. Please log in again." None None.

(** The [catch (refreshError)] block. *)
Definition refresh_failed (rid : nat) (w : World) : World :=
  let w := clearTokens w in
  let w := set_href "/auth" w in
  finish rid (Rejected session_expired) w.

(** [await] on the pending refresh. *)
Definition await_refresh (rid : nat) (w : World) : World :=
  match refreshPromise w with
  | Some p => set_refreshPromise (Some {| pid := pid p; waiters := waiters p ++ [rid] |}) w
  | None => w
  end.

(** [makeRequest(retryCount)] of request [rid], from the moment its
    [fetch] settles. *)
Definition makeRequest_response (rid retryCount : nat) (r : FetchResult) (w : World)
    : World :=
  match r with
  | NetworkError reason => finish rid (Rejected (FetchFailed reason)) w
  | Response status body =>
      if (status =? 401) && Nat.eqb retryCount 0 && truthy (refreshToken w) then
        match refreshAccessToken w with
        | (RefreshPending _, w) => await_refresh rid w
        | (RefreshThrows _, w) => refresh_failed rid w
        end
      else if negb (ok status) then
        let errorData := match body with Some d => d | None => JObj [] end in
        match GetV errorData "detail" with
        | None => finish rid (Rejected TypeError) w
        | Some detail =>
            let message :=
              if truthy detail then ToString detail
              else "HTTP error! status: " +:+ Z_to_string status in
            finish rid (Rejected (Error message (Some status) (Some errorData))) w
        end
      else
        match body with
        | Some v => finish rid (Resolved v) w
        | None => finish rid (Rejected SyntaxError) w
        end
  end.

(** A request that awaited the refresh goes on: [return makeRequest(1)],
    or the [catch (refreshError)] block. *)
Definition resume (out : Outcome) (w : World) (rid : nat) : World :=
  match out with
  | Resolved _ => makeRequest rid 1 w
  | Rejected _ => refresh_failed rid w
  end.

(** The refresh [fetch] settles: the chain runs, then the waiting requests
    go on in the order in which they started to wait. *)
Definition refresh_settled (r : FetchResult) (w : World) : World :=
  let ws := match refreshPromise w with Some p => waiters p | None => [] end in
  let '(out, w) := refresh_chain r w in
  fold_left (resume out) ws w.

(** [request(endpoint, options = {})]: the id of the logical request and
    the state once its first [fetch] is out. *)
Definition request (endpoint : string) (options : option nat) (w : World) : nat * World :=
  let '(options, w) :=
    match options with Some r => (r, w) | None => alloc [] w end in
  let url := request_url endpoint (deref options w) in
  let rid := length (calls w) in
  let w := set_calls (calls w ++ [{| c_url := url; c_options := options |}]) w in
  (rid, makeRequest rid 0 w).

(** ** The page as a transition system *)

(** The transport settles the in-flight fetch [id]. *)
Definition settle (id : nat) (r : FetchResult) (w : World) : World :=
  if existsb (Nat.eqb id) (inflight w) then
    let w := set_inflight (List.filter (fun i => negb (Nat.eqb id i)) (inflight w)) w in
    match net w !! id with
    | Some (_, KFetch rid retryCount) => makeRequest_response rid retryCount r w
    | Some (_, KRefresh) => refresh_settled r w
    | None => w
    end
  else w.

(** The steps in which the service takes part: the application builds an
    object, calls a method of the service, or the transport settles a
    fetch. *)
Inductive Action : Type :=
| ANew (o : jsobj)
| ARequest (endpoint : string) (options : option nat)
| ASettle (id : nat) (r : FetchResult)
| ASetToken (accessToken refreshToken_arg : jsval)
| AClearTokens
| ARefreshAccessToken.

Definition act (w : World) (a : Action) : World :=
  match a with
  | ANew o => snd (alloc o w)
  | ARequest endpoint None => snd (request endpoint None w)
  | ARequest endpoint (Some r) =>
      if (r <? length (heap w))%nat then snd (request endpoint (Some r) w) else w
  | ASettle id r => settle id r w
  | ASetToken a r => setToken a r w
  | AClearTokens => clearTokens w
  | ARefreshAccessToken => snd (refreshAccessToken w)
  end.

Definition run (acts : list Action) (w : World) : World := fold_left act acts w.

(** Between two such steps the application runs code of its own, and the
    objects it holds are its own to change: [options.method = ...],
    [delete options.body].  [makeRequest] keeps the reference to [options],
    not a copy, so such an assignment is seen by a later [makeRequest(1)].
    Which objects the application holds is not recorded: as for the
    [options] of [ARequest], any existing object will do. *)
Inductive Event : Type :=
| EAct (a : Action)
| EAssign (r : nat) (o : jsobj).

Definition happen (w : World) (e : Event) : World :=
  match e with
  | EAct a => act w a
  | EAssign r o => store r o w
  end.

Definition play (es : list Event) (w : World) : World := fold_left happen es w.

(** The pages that a page load followed by any such history leads to. *)
Definition reachable (w : World) : Prop :=
  exists ls objs es, w = play es (constructor ls objs).

(** ** The other methods of the service *)

(** [isAuthenticated()], [getToken()] and [getRefreshToken()] *)
Definition isAuthenticated (w : World) : bool := truthy (token w).
Definition getToken (w : World) : jsval := token w.
Definition getRefreshToken (w : World) : jsval := refreshToken w.


(** [this.request(endpoint, { ... })] with the options written as an object
    literal at the call. *)
Definition request_with (endpoint : string) (options : jsobj) (w : World) : nat * World :=
  let '(o, w) := alloc options w in
  request endpoint (Some o) w.

Definition success : jsval := JObj [("success", JBool true)].


Definition login_then (out : Outcome) (w : World) : Outcome * World :=
  match out with
  | Rejected e => (Rejected e, w)
  | Resolved response =>
      match GetV response "access_token", GetV response "refresh_token" with
      | Some access_token, Some refresh_token =>
          if truthy access_token
          then (Resolved response, setToken access_token refresh_token w)
          else (Resolved response, w)
      | _, _ => (Rejected TypeError, w)
      end
  end.

(** [logout()]: the error of the request is caught and logged. *)
Definition logout (w : World) : nat * World :=
  request_with "/auth/logout" [("method", JStr "POST")] w.

Definition logout_then (out : Outcome) (w : World) : Outcome * World :=
  (Resolved success, clearTokens w).





(** [const { user_id, ...filteredParams } = params]: the own fields of
    [params] but [user_id]. *)
Definition without_user_id (params : jsval) : jsval :=
  JObj (obj_delete "user_id" (Object_entries params)).

(** [getProblems(params = {})]: destructuring [null] throws before any
    request is made ([None]). *)
Definition getProblems (params : jsval) (w : World) : option nat * World :=
  let params := default_arg (JObj []) params in
  if is_null params then (None, w)
  else
    let '(rid, w) :=
      request_with "/problems"
        [("method", JStr "GET"); ("params", without_user_id params)] w in
    (Some rid, w).

(** ** A page with one request at a time *)

(** The transport answers the oldest fetch in flight, if there is one. *)
Definition serve1 (w : World) (r : FetchResult) : World :=
  match inflight w with
  | id :: _ => settle id r w
  | [] => w
  end.

Definition serve (answers : list FetchResult) (w : World) : World :=
  fold_left serve1 answers w.

(** ** The client without refresh tokens ([src/lib/api.js]) *)

Module Legacy.

(** [setToken(token)] *)
Definition setToken (tok : jsval) (w : World) : World :=
  let w := set_token tok w in
  if truthy tok then setItem "access_token" tok w
  else removeItem "access_token" w.

(** [request], from the moment its [fetch] settles: the error of a
    non-2xx response has a message only. *)
Definition request_response (r : FetchResult) : Outcome :=
  match r with
  | NetworkError reason => Rejected (FetchFailed reason)
  | Response status body =>
      if negb (ok status) then
        let errorData := match body with Some d => d | None => JObj [] end in
        match GetV errorData "detail" with
        | None => Rejected TypeError
        | Some detail =>
            Rejected
              (Error (if truthy detail then ToString detail
                      else "HTTP error! status: " +:+ Z_to_string status)
                 None None)
        end
      else
        match body with
        | Some v => Resolved v
        | None => Rejected SyntaxError
        end
  end.

(** [login(credentials)], once its request has settled. *)
Definition login_then (out : Outcome) (w : World) : Outcome * World :=
  match out with
  | Rejected e => (Rejected e, w)
  | Resolved response =>
      match GetV response "access_token" with
      | Some access_token =>
          if truthy access_token
          then (Resolved response, setToken access_token w)
          else (Resolved response, w)
      | None => (Rejected TypeError, w)
      end
  end.

(** [logout()]: no request is made. *)
Definition logout (w : World) : Outcome * World :=
  (Resolved success, setToken JNull w).

End Legacy.

(** ** Vocabulary of the statements *)

(** The entries of [params] that reach the query string. *)
Definition kept_entries (params : jsval) : jsobj :=
  List.filter (fun kv => not_nullish (snd kv)) (Object_entries params).

(** Request [rid] has failed with "Session expired" and both tokens are
    gone from the service and from [localStorage]. *)
Definition session_terminated (rid : nat) (w : World) : Prop :=
  In (rid, Rejected session_expired) (results w)
  /\ token w = JNull /\ refreshToken w = JNull
  /\ localStorage w !! "access_token" = None
  /\ localStorage w !! "refresh_token" = None.

(** The token store: both fields and both entries of [localStorage]. *)
Definition same_tokens (w w' : World) : Prop :=
  token w' = token w /\ refreshToken w' = refreshToken w
  /\ localStorage w' = localStorage w.

(** The fetch [id] is a refresh call. *)
Definition is_refresh (calls_out : list (FetchCall * Kont)) (id : nat) : bool :=
  match calls_out !! id with
  | Some (_, KRefresh) => true
  | _ => false
  end.

(** The refresh calls that the transport has not settled yet. *)
Definition outstanding_refreshes (w : World) : list nat :=
  List.filter (is_refresh (net w)) (inflight w).

(** The fetch [e] was issued for the logical request [rid]. *)
Definition issued_for (rid : nat) (e : FetchCall * Kont) : bool :=
  match snd e with
  | KFetch rid' _ => Nat.eqb rid' rid
  | KRefresh => false
  end.

(** What holds of every page the service can be in. *)
Record wf (w : World) : Prop := {
  wf_inflight_lt : Forall (fun id => (id < length (net w))%nat) (inflight w);
  wf_inflight_nodup : NoDup (inflight w);
  wf_refresh :
    outstanding_refreshes w
    = match refreshPromise w with Some p => [pid p] | None => [] end;
  wf_options : Forall (fun c => (c_options c < length (heap w))%nat) (calls w);
  wf_waiters :
    forall p, refreshPromise w = Some p ->
              Forall (fun rid => (rid < length (calls w))%nat) (waiters p);
  wf_net_rid :
    Forall (fun e => match snd e with
                     | KFetch rid _ => (rid < length (calls w))%nat
                     | KRefresh => True
                     end) (net w)
}.

(** The fetch that [makeRequest(retryCount)] of request [rid] sends out
    when the token it reads is [tok]. *)
Definition attempt (tok : jsval) (w : World) (rid retryCount : nat)
    : option (FetchCall * Kont) :=
  match calls w !! rid with
  | Some c =>
      Some ({| f_url := c_url c;
               f_config := config_for tok (deref (c_options c) w) |},
            KFetch rid retryCount)
  | None => None
  end.

(** The fetch [id] is the first attempt of request [rid], not settled yet. *)
Definition first_attempt (w : World) (id rid : nat) : Prop :=
  In id (inflight w) /\ exists fc, net w !! id = Some (fc, KFetch rid 0).

(** The fetches [ids] are answered 401, one after the other. *)
Definition observe_401 (body_of : nat -> option jsval) (ids : list nat) (w : World)
    : World :=
  fold_left (fun w id => settle id (Response 401 (body_of id)) w) ids w.

(** Pages used as examples: a signed-in page, the same with two requests
    out, and the same once both first attempts have been answered 401. *)
Definition signed_in : World :=
  constructor {[ "access_token" := "a0"; "refresh_token" := "r0" ]}
    [[("method", JStr "GET"); ("params", JObj [("tag", JStr "dp")])]].

Definition two_out : World :=
  run [ARequest "/problems" (Some 0%nat); ARequest "/auth/me" None] signed_in.

Definition two_waiting : World :=
  run [ASettle 0 (Response 401 None); ASettle 1 (Response 401 None)] two_out.

Definition fresh_pair : jsval :=
  JObj [("access_token", JStr "a1"); ("refresh_token", JStr "r1")].

(** The fetch [e] is attempt number [n] of request [rid]. *)
Definition is_attempt (rid n : nat) (e : FetchCall * Kont) : bool :=
  match snd e with
  | KFetch rid' n' => Nat.eqb rid' rid && Nat.eqb n' n
  | KRefresh => false
  end.

(** How many times attempt [n] of request [rid] has been sent. *)
Definition sent (rid n : nat) (w : World) : nat :=
  length (List.filter (is_attempt rid n) (net w)).

(** How many first attempts of request [rid] are in flight. *)
Definition first_pending (rid : nat) (w : World) : nat :=
  length (List.filter
            (fun id => match net w !! id with
                       | Some e => is_attempt rid 0 e
                       | None => false
                       end) (inflight w)).

(** How many times request [rid] awaits the pending refresh. *)
Definition waiting (rid : nat) (w : World) : nat :=
  match refreshPromise w with
  | Some p => length (List.filter (Nat.eqb rid) (waiters p))
  | None => 0%nat
  end.

(** What stands between request [rid] and its retry: the retry is out, or
    the first attempt is still in flight, or the request awaits the refresh. *)
Definition retry_slot (rid : nat) (w : World) : nat :=
  (sent rid 1 w + first_pending rid w + waiting rid w)%nat.

(** Every fetch of a logical request is an attempt 0 or 1 of a registered
    call and goes to the URL of that call; each attempt is sent at most
    once. *)
Record once (w : World) : Prop := {
  once_shape :
    Forall (fun e => match snd e with
                     | KFetch rid n =>
                         (n <= 1)%nat
                         /\ exists c, calls w !! rid = Some c /\ f_url (fst e) = c_url c
                     | KRefresh => True
                     end) (net w);
  once_first : forall rid, (sent rid 0 w <= 1)%nat;
  once_retry : forall rid, (retry_slot rid w <= 1)%nat
}.

(** Two [headers] values that agree except for the [Authorization] entry. *)
Definition same_but_authorization (h h' : jsval) : Prop :=
  match h, h' with
  | JObj o, JObj o' => obj_delete "Authorization" o = obj_delete "Authorization" o'
  | _, _ => h = h'
  end.

(** The response [r] to attempt [n] makes the request wait for a refresh. *)
Definition starts_refresh (n : nat) (r : FetchResult) (w : World) : bool :=
  match r with
  | Response status _ => (status =? 401)%Z && Nat.eqb n 0 && truthy (refreshToken w)
  | NetworkError _ => false
  end.

(** How a request settles on a response that starts no refresh. *)
Definition settles_with (r : FetchResult) : Outcome :=
  match r with
  | NetworkError reason => Rejected (FetchFailed reason)
  | Response status body =>
      if negb (ok status) then
        let errorData := match body with Some d => d | None => JObj [] end in
        match GetV errorData "detail" with
        | None => Rejected TypeError
        | Some detail =>
            Rejected
              (Error (if truthy detail then ToString detail
                      else "HTTP error! status: " +:+ Z_to_string status)
                 (Some status) (Some errorData))
        end
      else
        match body with
        | Some v => Resolved v
        | None => Rejected SyntaxError
        end
  end.

(** An error without the [status] and [data] that [makeRequest] attaches. *)
Definition forget_payload (out : Outcome) : Outcome :=
  match out with
  | Rejected (Error message _ _) => Rejected (Error message None None)
  | _ => out
  end.

(** Nothing is in flight on the page. *)
Definition idle (w : World) : Prop := inflight w = [].

(** The only fetch in flight is attempt [n] of request [rid]. *)
Definition one_out (id rid n : nat) (w : World) : Prop :=
  inflight w = [id] /\ (exists fc, net w !! id = Some (fc, KFetch rid n))
  /\ refreshPromise w = None.

(** The only fetch in flight is a refresh, awaited by request [rid] alone. *)
Definition refreshing (id rid : nat) (w : World) : Prop :=
  inflight w = [id] /\ (exists fc, net w !! id = Some (fc, KRefresh))
  /\ refreshPromise w = Some {| pid := id; waiters := [rid] |}.

(** The refresh calls among the fetches issued so far. *)
Definition refresh_calls (w : World) : list (FetchCall * Kont) :=
  List.filter (fun e => match snd e with KRefresh => true | KFetch _ _ => false end)
    (net w).

(** The event [e] is the transport's answer to the fetch [id]. *)
Definition answers (id : nat) (e : Event) : bool :=
  match e with
  | EAct (ASettle id' _) => Nat.eqb id' id
  | _ => false
  end.

(** A signed-in page whose application holds the options of a POST, and
    the same page once the request made with them has been answered 401
    and awaits the refresh. *)
Definition posting : World :=
  constructor {[ "access_token" := "a0"; "refresh_token" := "r0" ]}
    [[("method", JStr "POST"); ("body", JStr "[1,2]")]].

Definition posting_waits : World :=
  play [EAct (ARequest "/problems" (Some 0%nat));
        EAct (ASettle 0 (Response 401 None))] posting.

(** The two requests of [two_out] with the answers in another order: the
    401 of the second one arrives when the refresh that the first one
    started has already been answered. *)
Definition late_401 : World :=
  run [ASettle 0 (Response 401 None);
       ASettle 2 (Response 200 (Some fresh_pair));
       ASettle 1 (Response 401 None)] two_out.

(** A request whose options bring their own [Authorization] header, taken
    through a 401 and a successful refresh. *)
Definition own_headers_retried : World :=
  run [ARequest "/auth/me" (Some 0%nat);
       ASettle 0 (Response 401 None);
       ASettle 1 (Response 200 (Some fresh_pair))]
    (constructor {[ "access_token" := "a0"; "refresh_token" := "r0" ]}
       [[("headers", JObj [("Authorization", JStr "Bearer a0")])]]).

(** ** Objects *)

Lemma obj_get_set_eq k v o : obj_get k (obj_set k v o) = v.
Proof.
  induction o as [|[k' v'] o IH]; simpl.
  - by rewrite String.eqb_refl.
  - destruct (String.eqb k' k) eqn:E; simpl; rewrite E; [done | exact IH].
Qed.

Lemma obj_get_set_ne k k' v o : k' <> k -> obj_get k (obj_set k' v o) = obj_get k o.
Proof.
  intros Hne. induction o as [|[k'' v''] o IH]; simpl.
  - apply String.eqb_neq in Hne. by rewrite Hne.
  - destruct (String.eqb k'' k') eqn:E; simpl.
    + apply String.eqb_eq in E; subst k''.
      apply String.eqb_neq in Hne. by rewrite Hne.
    + destruct (String.eqb k'' k); [done | exact IH].
Qed.

Lemma obj_has_set k k' v o :
  obj_has k (obj_set k' v o) = String.eqb k' k || obj_has k o.
Proof.
  induction o as [|[k'' v''] o IH]; simpl.
  - done.
  - destruct (String.eqb k'' k') eqn:E; simpl.
    + apply String.eqb_eq in E; subst k''.
      destruct (String.eqb k' k); done.
    + rewrite IH. destruct (String.eqb k'' k), (String.eqb k' k); done.
Qed.

Lemma obj_get_delete_ne k k' o : k' <> k -> obj_get k (obj_delete k' o) = obj_get k o.
Proof.
  intros Hne. induction o as [|[k'' v''] o IH]; simpl; [done|].
  destruct (String.eqb k'' k') eqn:E; simpl.
  - apply String.eqb_eq in E; subst k''.
    apply String.eqb_neq in Hne. by rewrite Hne.
  - by rewrite IH.
Qed.

Lemma obj_has_delete_eq k o : obj_has k (obj_delete k o) = false.
Proof.
  induction o as [|[k' v'] o IH]; simpl; [done|].
  destruct (String.eqb k' k) eqn:E; simpl; [done | by rewrite E].
Qed.

Lemma obj_get_spread_absent k t s :
  obj_has k s = false -> obj_get k (obj_spread t s) = obj_get k t.
Proof.
  unfold obj_spread. revert t.
  induction s as [|[k' v'] s IH]; intros t Hs; simpl in *; [done|].
  apply orb_false_iff in Hs as [Hk Hs].
  rewrite IH by done. apply obj_get_set_ne. by apply String.eqb_neq.
Qed.

(** ** Token store *)

Lemma truthy_default_arg_undefined : truthy (default_arg JNull JUndefined) = false.
Proof. reflexivity. Qed.

Lemma default_arg_truthy v : truthy v = true -> default_arg JNull v = v.
Proof. by destruct v. Qed.

(** C3, where the code departs from it: [setToken(access)], the refresh
    argument omitted, leaves [this.refreshToken] as it is but removes the
    [refresh_token] entry of [localStorage], so that the next page load
    finds no refresh token.  The parameter defaults to [null], and the
    test [refreshToken === null] takes that default for a [null] passed on
    purpose: the two calls do the same. *)
Theorem setToken_omitted_refresh_unstored (w : World) (access : jsval)
    (objs : list jsobj) :
  let w' := setToken access JUndefined w in
  refreshToken w' = refreshToken w
  /\ localStorage w' !! "refresh_token" = None
  /\ refreshToken (constructor (localStorage w') objs) = JNull
  /\ w' = setToken access JNull w.
Proof.
  cbn zeta. unfold constructor, getItem.
  cbn [refreshToken set_token set_refreshToken set_refreshPromise localStorage].
  assert (localStorage (setToken access JUndefined w) !! "refresh_token" = None) as Hgone.
  { unfold setToken. cbn [default_arg truthy is_null].
    destruct (truthy access); apply lookup_delete_eq. }
  rewrite Hgone. split; [|done].
  unfold setToken. cbn [default_arg truthy is_null]. by destruct (truthy access).
Qed.

(** On a page that has a refresh token stored: after [setToken("a1")] the
    entry is gone. *)
Example setToken_access_only_drops_stored_refresh :
  let w := constructor {[ "refresh_token" := "r0" ]} [] in
  localStorage w !! "refresh_token" = Some "r0"
  /\ refreshToken (setToken (JStr "a1") JUndefined w) = JStr "r0"
  /\ localStorage (setToken (JStr "a1") JUndefined w) !! "refresh_token"
     <> localStorage w !! "refresh_token".
Proof. by vm_compute. Qed.

(** The other half of C3 holds: [setToken(access, refresh)] with both
    arguments truthy writes both tokens to the fields and to
    [localStorage]. *)
Lemma setToken_refresh_argument_aux (w : World) (access refresh : jsval) :
  truthy access = true -> truthy refresh = true ->
  token (setToken access refresh w) = access
  /\ refreshToken (setToken access refresh w) = refresh
  /\ localStorage (setToken access refresh w) !! "access_token" = Some (ToString access)
  /\ localStorage (setToken access refresh w) !! "refresh_token" = Some (ToString refresh).
Proof.
  intros Haccess Hrefresh.
  unfold setToken. rewrite (default_arg_truthy refresh Hrefresh), Haccess, Hrefresh.
  simpl. repeat split; try done.
  - rewrite lookup_insert_ne by done. apply lookup_insert_eq.
  - apply lookup_insert_eq.
Qed.

Lemma clearTokens_spec w :
  token (clearTokens w) = JNull /\ refreshToken (clearTokens w) = JNull
  /\ localStorage (clearTokens w) !! "access_token" = None
  /\ localStorage (clearTokens w) !! "refresh_token" = None.
Proof.
  unfold clearTokens; simpl. repeat split; try done.
  - rewrite lookup_delete_ne by done. apply lookup_delete_eq.
  - apply lookup_delete_eq.
Qed.

(** ** Headers *)

Lemma getAuthHeaders_auth_headers w : getAuthHeaders w = auth_headers (token w).
Proof. reflexivity. Qed.

Lemma getAuthHeaders_content_type w :
  obj_get "Content-Type" (getAuthHeaders w) = JStr "application/json".
Proof. unfold getAuthHeaders. by destruct (truthy (token w)). Qed.

Lemma getAuthHeaders_authorization w :
  obj_get "Authorization" (getAuthHeaders w)
  = if truthy (token w) then JStr ("Bearer " +:+ ToString (token w)) else JUndefined.
Proof. unfold getAuthHeaders. by destruct (truthy (token w)). Qed.

Lemma getAuthHeaders_has_authorization w :
  obj_has "Authorization" (getAuthHeaders w) = truthy (token w).
Proof. unfold getAuthHeaders. by destruct (truthy (token w)). Qed.

(** ** Cells of the heap *)

Lemma deref_set_heap r h w : deref r (set_heap h w) = default [] (h !! r).
Proof. reflexivity. Qed.

Lemma set_heap_set_heap h h' w : set_heap h (set_heap h' w) = set_heap h w.
Proof. reflexivity. Qed.

Lemma lookup_snoc_length {A} (l : list A) (x : A) : (l ++ [x]) !! length l = Some x.
Proof. by apply list_lookup_middle. Qed.

Lemma insert_snoc_length {A} (l : list A) (x y : A) :
  <[length l := y]> (l ++ [x]) = l ++ [y].
Proof.
  replace (length l) with (length l + 0)%nat by lia. by rewrite insert_app_r.
Qed.

Lemma config_for_built_headers tok o :
  obj_has "headers" o = false ->
  obj_get "headers" (config_for tok o) = JObj (auth_headers tok).
Proof.
  intros Hno. unfold config_for.
  rewrite obj_get_delete_ne by done.
  rewrite obj_get_spread_absent by done. reflexivity.
Qed.

Lemma obj_spread_own_headers o : forall V1 V2 rest,
  obj_has "headers" o = true ->
  obj_spread (("headers", V1) :: rest) o = obj_spread (("headers", V2) :: rest) o.
Proof.
  unfold obj_spread.
  induction o as [|[k v] o IH]; intros V1 V2 rest Hown;
    cbn [fold_left obj_set obj_has fst snd] in *.
  - done.
  - rewrite (String.eqb_sym k "headers") in Hown.
    destruct (String.eqb "headers" k) eqn:E; [done|].
    apply IH, Hown.
Qed.

Lemma config_for_own_headers tok tok' o :
  obj_has "headers" o = true -> config_for tok o = config_for tok' o.
Proof.
  intros Hown. unfold config_for. by rewrite (obj_spread_own_headers o _ (JObj (auth_headers tok')) []).
Qed.

(** C8 as the claim has it, refuted: options that carry a [headers] field
    replace the built headers, so the request goes out with neither
    [Content-Type] nor [Authorization] although a token is stored. *)
Lemma own_headers_replace_built_headers :
  let w := constructor {[ "access_token" := "a0" ]}
             [[("method", JStr "POST"); ("headers", JObj [("X-Trace", JStr "1")])]] in
  truthy (token w) = true
  /\ List.map fst (net (snd (request "/problems" (Some 0%nat) w)))
     = [{| f_url := "http://localhost:8000/api/problems";
           f_config := [("headers", JObj [("X-Trace", JStr "1")]);
                        ("method", JStr "POST")] |}].
Proof. by vm_compute. Qed.

(** C8, amended: the headers built by [getAuthHeaders] always have
    [Content-Type: application/json], and have [Authorization: Bearer]
    followed by the token exactly when [this.token] is truthy; a request
    whose options have no [headers] field is sent with these headers, and a
    [headers] field in the options takes their place whatever the token. *)
Theorem built_headers (w : World) :
  obj_get "Content-Type" (getAuthHeaders w) = JStr "application/json"
  /\ obj_has "Authorization" (getAuthHeaders w) = truthy (token w)
  /\ obj_get "Authorization" (getAuthHeaders w)
     = (if truthy (token w) then JStr ("Bearer " +:+ ToString (token w)) else JUndefined)
  /\ forall rid n c,
      calls w !! rid = Some c ->
      exists fc,
        net (makeRequest rid n w) = net w ++ [(fc, KFetch rid n)]
        /\ (obj_has "headers" (deref (c_options c) w) = false ->
            obj_get "headers" (f_config fc) = JObj (getAuthHeaders w))
        /\ (obj_has "headers" (deref (c_options c) w) = true ->
            forall tok, f_config fc = config_for tok (deref (c_options c) w)).
Proof.
  split; [apply getAuthHeaders_content_type|].
  split; [apply getAuthHeaders_has_authorization|].
  split; [apply getAuthHeaders_authorization|].
  intros rid n c Hcall.
  unfold makeRequest. rewrite Hcall.
  unfold alloc, store, fetch. simpl.
  rewrite !deref_set_heap, lookup_snoc_length. simpl.
  rewrite insert_snoc_length, lookup_snoc_length. simpl.
  eexists. split; [reflexivity|]. simpl. split.
  - intros Hno. by apply (config_for_built_headers (token w)).
  - intros Hown tok. by apply (config_for_own_headers (token w)).
Qed.

Lemma built_headers_witness :
  calls two_out !! 1%nat
  = Some {| c_url := "http://localhost:8000/api/auth/me"; c_options := 2 |}
  /\ obj_get "Authorization" (getAuthHeaders two_out) = JStr "Bearer a0"
  /\ obj_has "Authorization" (getAuthHeaders (clearTokens two_out)) = false
  /\ exists fc,
      net (makeRequest 1 1 two_out) = net two_out ++ [(fc, KFetch 1 1)]
      /\ obj_get "headers" (f_config fc) = JObj (getAuthHeaders two_out).
Proof.
  split; [reflexivity|].
  destruct (built_headers two_out) as (_ & _ & Hauth & Hsent).
  destruct (Hsent 1%nat 1%nat _ eq_refl) as (fc & Hnet & Hbuilt & _).
  split; [exact Hauth|].
  split; [exact (proj1 (proj2 (built_headers (clearTokens two_out))))|].
  exists fc. split; [exact Hnet | exact (Hbuilt eq_refl)].
Defined.

(** ** Query strings *)

Lemma append_nonempty_l (s t : string) : s <> "" -> s +:+ t <> "".
Proof. by destruct s. Qed.

Lemma append_nonempty_r (s t : string) : t <> "" -> s +:+ t <> "".
Proof. destruct s; [done | by intros _]. Qed.

Lemma join_cons_nonempty sep (s : string) l : s <> "" -> join sep (s :: l) <> "".
Proof.
  intros Hs. destruct l as [|s' l]; simpl; [done|].
  by apply append_nonempty_l.
Qed.

Lemma URLSearchParams_toString_nonempty kv sp :
  URLSearchParams_toString (kv :: sp) <> "".
Proof.
  unfold URLSearchParams_toString. rewrite map_cons.
  apply join_cons_nonempty, append_nonempty_r. done.
Qed.

Lemma truthy_JStr_nonempty s : s <> "" -> truthy (JStr s) = true.
Proof. intros Hs. simpl. apply String.eqb_neq in Hs. by rewrite Hs. Qed.

Lemma searchParams_fold (entries : jsobj) (sp : list (string * string)) :
  fold_left
    (fun sp kv =>
       if not_nullish (snd kv) then URLSearchParams_append (fst kv) (snd kv) sp
       else sp) entries sp
  = (sp ++ List.map (fun kv => (fst kv, ToString (snd kv)))
             (List.filter (fun kv => not_nullish (snd kv)) entries))%list.
Proof.
  revert sp. induction entries as [|[k v] entries IH]; intros sp; simpl.
  - by rewrite app_nil_r.
  - destruct (not_nullish v); simpl; rewrite IH; [|done].
    unfold URLSearchParams_append. by rewrite <- app_assoc.
Qed.

Lemma searchParams_of_kept params :
  searchParams_of params
  = List.map (fun kv => (fst kv, ToString (snd kv))) (kept_entries params).
Proof. unfold searchParams_of. by rewrite searchParams_fold. Qed.

(** C10: with a [params] map in the options, the entries whose value is
    [null] or [undefined] are left out of the query string, the others are
    appended in order, and when none is left the URL gets no [?]. *)
Theorem request_url_params (endpoint : string) (options : jsobj)
    (Hparams : truthy (obj_get "params" options) = true) :
  let kept := kept_entries (obj_get "params" options) in
  searchParams_of (obj_get "params" options)
  = List.map (fun kv => (fst kv, ToString (snd kv))) kept
  /\ request_url endpoint options
     = match kept with
       | [] => API_BASE_URL +:+ endpoint
       | _ :: _ =>
           (API_BASE_URL +:+ endpoint) +:+ "?" +:+
           join "&" (List.map (fun kv => urlencode (fst kv) +:+ "=" +:+
                                         urlencode (ToString (snd kv))) kept)
       end.
Proof.
  intros kept. split; [apply searchParams_of_kept|].
  unfold request_url. rewrite Hparams, searchParams_of_kept. fold kept.
  destruct kept as [|kv kept']; [done|].
  rewrite truthy_JStr_nonempty by apply URLSearchParams_toString_nonempty.
  unfold URLSearchParams_toString. by rewrite List.map_map.
Qed.

Lemma request_url_params_witness :
  let options :=
    [("method", JStr "GET");
     ("params", JObj [("tag", JStr "dp graph"); ("difficulty", JNull);
                      ("page", JNum 2); ("q", JUndefined)])] in
  truthy (obj_get "params" options) = true
  /\ request_url "/problems" options
     = "http://localhost:8000/api/problems?tag=dp+graph&page=2"
  /\ request_url "/problems" [("params", JObj [("difficulty", JNull)])]
     = "http://localhost:8000/api/problems".
Proof.
  intros options. split; [reflexivity|]. split.
  - exact (proj2 (request_url_params "/problems" options eq_refl)).
  - exact (proj2 (request_url_params "/problems"
                    [("params", JObj [("difficulty", JNull)])] eq_refl)).
Defined.

(** ** One response at a time *)

Lemma refreshAccessToken_no_token w :
  truthy (refreshToken w) = false ->
  refreshAccessToken w = (RefreshThrows (Error "No refresh token available" None None), w).
Proof. intros H. unfold refreshAccessToken. by rewrite H. Qed.

Lemma refreshAccessToken_join w p :
  truthy (refreshToken w) = true -> refreshPromise w = Some p ->
  refreshAccessToken w = (RefreshPending (pid p), w).
Proof. intros H Hp. unfold refreshAccessToken. by rewrite H, Hp. Qed.

Lemma refreshAccessToken_start w :
  truthy (refreshToken w) = true -> refreshPromise w = None ->
  refreshAccessToken w
  = (RefreshPending (length (net w)),
     set_refreshPromise (Some {| pid := length (net w); waiters := [] |})
       (fetch (f_url (refresh_call w)) (f_config (refresh_call w)) KRefresh w)).
Proof. intros H Hp. unfold refreshAccessToken. by rewrite H, Hp. Qed.

(** A 401 on the first attempt with a refresh token stored: the request
    waits for the refresh, which it starts if none is pending. *)
Lemma makeRequest_response_401_awaits rid body w :
  truthy (refreshToken w) = true ->
  makeRequest_response rid 0 (Response 401 body) w
  = await_refresh rid (snd (refreshAccessToken w))
  /\ exists p,
      refreshPromise (makeRequest_response rid 0 (Response 401 body) w) = Some p
      /\ In rid (waiters p).
Proof.
  intros Hrt. unfold makeRequest_response. rewrite Hrt. simpl.
  destruct (refreshPromise w) as [p|] eqn:Hp.
  - rewrite (refreshAccessToken_join w p Hrt Hp). simpl. split; [done|].
    unfold await_refresh. rewrite Hp. simpl. eexists; split; [done|].
    simpl. apply in_or_app. right. by left.
  - rewrite (refreshAccessToken_start w Hrt Hp). simpl. split; [done|].
    eexists; split; [done|]. simpl. by left.
Qed.

(** Any other 401 takes the path of the non-2xx responses. *)
Lemma makeRequest_response_401_plain rid n body w :
  n <> 0%nat \/ truthy (refreshToken w) = false ->
  exists message data,
    makeRequest_response rid n (Response 401 body) w
    = finish rid (Rejected (match data with
                            | Some d => Error message (Some 401) (Some d)
                            | None => TypeError
                            end)) w.
Proof.
  intros Hguard. unfold makeRequest_response.
  assert (Nat.eqb n 0 && truthy (refreshToken w) = false) as Hg.
  { destruct Hguard as [Hn|Hrt].
    - apply Nat.eqb_neq in Hn. by rewrite Hn.
    - rewrite Hrt. apply andb_false_r. }
  change (401 =? 401) with true. rewrite andb_true_l, Hg. simpl.
  destruct (GetV _ "detail") as [detail|].
  - eexists _, (Some _). reflexivity.
  - exists "", None. reflexivity.
Qed.

Lemma resume_rejected_all e ws w :
  let w' := fold_left (resume (Rejected e)) ws w in
  results w' = (results w ++ List.map (fun rid => (rid, Rejected session_expired)) ws)%list
  /\ net w' = net w /\ refreshPromise w' = refreshPromise w
  /\ (ws <> [] ->
      token w' = JNull /\ refreshToken w' = JNull
      /\ localStorage w' !! "access_token" = None
      /\ localStorage w' !! "refresh_token" = None
      /\ href w' = "/auth").
Proof.
  induction ws as [|rid ws IH] using rev_ind; simpl.
  - rewrite app_nil_r. done.
  - rewrite fold_left_app. simpl.
    destruct IH as (Hres & Hnet & Hp & _).
    set (w1 := fold_left (resume (Rejected e)) ws w) in *.
    destruct (clearTokens_spec w1) as (Ht & Hr & Ha & Hf).
    unfold refresh_failed. simpl.
    rewrite Hres, Hnet, Hp, map_app, <- app_assoc. simpl.
    repeat split; [exact Ha | exact Hf].
Qed.

Lemma refresh_then_rejected r w e w' :
  refresh_then r w = (Rejected e, w') -> w' = w.
Proof.
  unfold refresh_then.
  destruct r as [reason|status body]; [by intros [= _ <-]|].
  destruct (negb (ok status)); [by intros [= _ <-]|].
  destruct body as [data|]; [|by intros [= _ <-]].
  destruct (GetV data "access_token"); [|by intros [= _ <-]].
  destruct (GetV data "refresh_token"); [done | by intros [= _ <-]].
Qed.

Lemma refresh_chain_rejected r w e w' :
  refresh_chain r w = (Rejected e, w') -> w' = set_refreshPromise None w.
Proof.
  unfold refresh_chain.
  destruct (refresh_then r w) as [out w0] eqn:Hthen.
  intros [= -> <-]. by rewrite (refresh_then_rejected _ _ _ _ Hthen).
Qed.

Lemma makeRequest_response_plain rid n r w :
  starts_refresh n r w = false ->
  makeRequest_response rid n r w = finish rid (settles_with r) w.
Proof.
  unfold starts_refresh, makeRequest_response, settles_with.
  destruct r as [reason|status body]; [done|].
  intros ->. destruct (negb (ok status)).
  - by destruct (GetV _ "detail").
  - by destruct body.
Qed.

(** C1 as the claim has it, refuted: a 401 with no refresh token stored,
    and a 401 on the retried request, end in the ordinary error of a
    non-2xx response and leave the tokens in place. *)
Lemma plain_401_is_not_session_expiry :
  let w1 := run [ARequest "/auth/me" None; ASettle 0 (Response 401 None)]
              (constructor {[ "access_token" := "a0" ]} []) in
  let w2 := run [ARequest "/auth/me" None;
                 ASettle 0 (Response 401 None);
                 ASettle 1 (Response 200 (Some (JObj [("access_token", JStr "a1");
                                                      ("refresh_token", JStr "r1")])));
                 ASettle 2 (Response 401 None)]
              (constructor {[ "access_token" := "a0"; "refresh_token" := "r0" ]} []) in
  (results w1 = [(0%nat, Rejected (Error "HTTP error! status: 401" (Some 401) (Some (JObj []))))]
   /\ token w1 = JStr "a0" /\ ~ session_terminated 0 w1)
  /\ (results w2 = [(0%nat, Rejected (Error "HTTP error! status: 401" (Some 401) (Some (JObj []))))]
      /\ token w2 = JStr "a1" /\ refreshToken w2 = JStr "r1" /\ ~ session_terminated 0 w2).
Proof.
  intros w1 w2. split.
  - split; [by vm_compute|]. split; [by vm_compute|].
    intros (_ & Ht & _). vm_compute in Ht. discriminate.
  - split; [by vm_compute|]. split; [by vm_compute|]. split; [by vm_compute|].
    intros (_ & Ht & _). vm_compute in Ht. discriminate.
Qed.

(** C1, amended: a request that meets a 401 on its first attempt while a
    refresh token is stored waits for the refresh, and when that refresh
    fails every waiting request fails with "Session expired", both tokens
    are cleared and the page is sent to [/auth].  A 401 met with no refresh
    token stored, or on the retried request, does not end the session: the
    call fails with an error that is not "Session expired", the tokens stay
    as they are and no fetch is issued, so no refresh call is made; for
    every body other than JSON [null] the error is the one of a non-2xx
    response, with status 401, the [detail] of the body or else the message
    made from the status, and the parsed body as its data. *)
Theorem session_expiry_paths (rid n : nat) (body : option jsval) (w : World) :
  (truthy (refreshToken w) = true ->
   exists q, refreshPromise (makeRequest_response rid 0 (Response 401 body) w) = Some q
             /\ In rid (waiters q))
  /\ (forall r p rid',
        refreshPromise w = Some p ->
        (exists e, fst (refresh_chain r w) = Rejected e) ->
        In rid' (waiters p) ->
        session_terminated rid' (refresh_settled r w)
        /\ href (refresh_settled r w) = "/auth"
        /\ net (refresh_settled r w) = net w)
  /\ (n <> 0%nat \/ truthy (refreshToken w) = false ->
      let w' := makeRequest_response rid n (Response 401 body) w in
      let errorData := match body with Some d => d | None => JObj [] end in
      (exists e, results w' = (results w ++ [(rid, Rejected e)])%list
                 /\ e <> session_expired)
      /\ (not_nullish errorData = true ->
          exists detail,
            GetV errorData "detail" = Some detail
            /\ results w'
               = (results w
                  ++ [(rid, Rejected
                              (Error (if truthy detail then ToString detail
                                      else "HTTP error! status: " +:+ Z_to_string 401)
                                 (Some 401) (Some errorData)))])%list)
      /\ same_tokens w w' /\ net w' = net w /\ href w' = href w).
Proof.
  split; [|split].
  - intros Hrt. apply (makeRequest_response_401_awaits rid body w Hrt).
  - intros r p rid' Hpending [e He] Hin.
    unfold refresh_settled. rewrite Hpending.
    destruct (refresh_chain r w) as [out w1] eqn:Hchain. simpl in He. subst out.
    destruct (resume_rejected_all e (waiters p) w1) as (Hres & Hnet & _ & Hclr).
    destruct Hclr as (Ht & Hr & Ha & Hf & Hh).
    { intros Hnil. rewrite Hnil in Hin. destruct Hin. }
    assert (net w1 = net w) as Hnet1.
    { by rewrite (refresh_chain_rejected _ _ _ _ Hchain). }
    repeat split; try done.
    + rewrite Hres. apply in_or_app. right.
      apply in_map_iff. by exists rid'.
    + by rewrite Hnet.
  - intros Hguard w' errorData.
    assert (starts_refresh n (Response 401 body) w = false) as Hplain.
    { unfold starts_refresh. destruct Hguard as [Hn|Hrt].
      - apply Nat.eqb_neq in Hn. rewrite Hn. by rewrite andb_false_r.
      - rewrite Hrt. apply andb_false_r. }
    subst w'. rewrite (makeRequest_response_plain rid n _ w Hplain).
    unfold settles_with. change (negb (ok 401)) with true. cbv iota. fold errorData.
    unfold finish, same_tokens. cbn [results set_results token refreshToken localStorage
      net href].
    split; [|split; [|done]].
    + destruct (GetV errorData "detail"); eexists; (split; [reflexivity | done]).
    + intros Hnn. destruct (GetV errorData "detail") as [detail|] eqn:Hd.
      * by exists detail.
      * by destruct errorData.
Qed.

(** The three paths on concrete pages: request 0 waits for the refresh
    that its 401 starts; the refresh is refused and request 0 is
    terminated; with no refresh token the 401 is an ordinary error. *)
Lemma session_expiry_paths_witness :
  let page := constructor {[ "access_token" := "a0"; "refresh_token" := "r0" ]} [] in
  let sent := run [ARequest "/auth/me" None] page in
  let waiting := run [ASettle 0 (Response 401 None)] sent in
  let bare := run [ARequest "/auth/me" None] (constructor {[ "access_token" := "a0" ]} []) in
  (exists q, refreshPromise (makeRequest_response 0 0 (Response 401 None) sent) = Some q
             /\ In 0%nat (waiters q))
  /\ session_terminated 0 (refresh_settled (Response 401 None) waiting)
  /\ same_tokens bare (makeRequest_response 0 0 (Response 401 None) bare).
Proof.
  intros page sent waiting bare. split; [|split].
  - apply (proj1 (session_expiry_paths 0 0 None sent)). reflexivity.
  - refine (proj1 (proj1 (proj2 (session_expiry_paths 0 0 None waiting))
                     (Response 401 None) {| pid := 1; waiters := [0%nat] |} 0%nat
                     _ _ _)).
    + reflexivity.
    + eexists. reflexivity.
    + simpl. by left.
  - refine (proj1 (proj2 (proj2 (proj2 (proj2 (session_expiry_paths 0 0 None bare)) _)))).
    right. reflexivity.
Defined.

(** ** Refresh coordinator, one call at a time *)

(** C5: with no refresh token stored [refreshAccessToken] throws "No
    refresh token available" and changes nothing; a refresh that fails
    leaves both tokens, in the fields and in [localStorage], as they were,
    and clears [refreshPromise], so that the next call of
    [refreshAccessToken] with a refresh token stored issues a new refresh
    fetch. *)
Theorem refresh_failure_keeps_tokens (w : World) :
  (truthy (refreshToken w) = false ->
   refreshAccessToken w
   = (RefreshThrows (Error "No refresh token available" None None), w))
  /\ (forall r e w',
        refresh_chain r w = (Rejected e, w') ->
        same_tokens w w'
        /\ refreshPromise w' = None
        /\ (truthy (refreshToken w') = true ->
            fst (refreshAccessToken w') = RefreshPending (length (net w'))
            /\ net (snd (refreshAccessToken w'))
               = (net w' ++ [(refresh_call w', KRefresh)])%list
            /\ refreshPromise (snd (refreshAccessToken w'))
               = Some {| pid := length (net w'); waiters := [] |})).
Proof.
  split; [apply refreshAccessToken_no_token|].
  intros r e w' Hfails.
  rewrite (refresh_chain_rejected _ _ _ _ Hfails).
  split; [done|]. split; [done|].
  intros Hrt. rewrite refreshAccessToken_start by done. done.
Qed.

Lemma refresh_failure_keeps_tokens_witness :
  let page := constructor {[ "access_token" := "a0"; "refresh_token" := "r0" ]} [] in
  let waiting := run [ARequest "/auth/me" None; ASettle 0 (Response 401 None)] page in
  let failed := set_refreshPromise None waiting in
  let bare := constructor {[ "access_token" := "a0" ]} [] in
  refreshAccessToken bare
  = (RefreshThrows (Error "No refresh token available" None None), bare)
  /\ refresh_chain (Response 403 None) waiting
     = (Rejected (Error "Token refresh failed" None None), failed)
  /\ same_tokens waiting failed
  /\ refreshPromise failed = None
  /\ net (snd (refreshAccessToken failed))
     = (net failed ++ [(refresh_call failed, KRefresh)])%list.
Proof.
  intros page waiting failed bare.
  split; [exact (proj1 (refresh_failure_keeps_tokens bare) eq_refl)|].
  assert (refresh_chain (Response 403 None) waiting
          = (Rejected (Error "Token refresh failed" None None), failed)) as Hfails
    by reflexivity.
  destruct (proj2 (refresh_failure_keeps_tokens waiting) _ _ _ Hfails)
    as (Hsame & Hnone & Hnext).
  split; [exact Hfails|]. split; [exact Hsame|]. split; [exact Hnone|].
  exact (proj1 (proj2 (Hnext eq_refl))).
Defined.

(** ** Responses that are neither 2xx nor a refreshed 401 *)

(** C7, where the code departs from it: an error response whose body is
    the JSON value [null] makes [errorData.detail] throw, and the call
    fails with that TypeError, which has neither [status] nor [data]. *)
Theorem error_response_null_body (rid n : nat) (w : World) :
  makeRequest_response rid n (Response 500 (Some JNull)) w
  = finish rid (Rejected TypeError) w.
Proof.
  unfold makeRequest_response. change (500 =? 401) with false. reflexivity.
Qed.

(** For every other body the error carries the status, the [detail] of the
    body when it is truthy (the status message otherwise) and the parsed
    body itself, an unreadable body counting as [{}]. *)
Lemma error_response_payload (rid n : nat) (status : Z) (body : option jsval) (w : World) :
  ok status = false -> status <> 401 ->
  body <> Some JNull -> body <> Some JUndefined ->
  let errorData := match body with Some d => d | None => JObj [] end in
  exists detail,
    GetV errorData "detail" = Some detail
    /\ makeRequest_response rid n (Response status body) w
       = finish rid
           (Rejected (Error (if truthy detail then ToString detail
                             else "HTTP error! status: " +:+ Z_to_string status)
                            (Some status) (Some errorData))) w.
Proof.
  intros Hok Hst Hnull Hundef errorData.
  unfold makeRequest_response. fold errorData.
  apply Z.eqb_neq in Hst. rewrite Hst, Hok. simpl.
  destruct (GetV errorData "detail") as [detail|] eqn:Hd.
  - by exists detail.
  - subst errorData. destruct body as [[]|]; done.
Qed.

Example error_response_conflicts :
  let body := JObj [("detail", JStr "conflict");
                    ("conflicts", JArr [JStr "id1"; JStr "id2"])] in
  results (makeRequest_response 0 0 (Response 409 (Some body))
             (constructor {[ "access_token" := "a0" ]} []))
  = [(0%nat, Rejected (Error "conflict" (Some 409) (Some body)))].
Proof. reflexivity. Qed.

(** ** What each step does to the page *)

Local Open Scope nat_scope.

Lemma setToken_frame a r w :
  refreshPromise (setToken a r w) = refreshPromise w
  /\ href (setToken a r w) = href w /\ heap (setToken a r w) = heap w
  /\ net (setToken a r w) = net w /\ inflight (setToken a r w) = inflight w
  /\ calls (setToken a r w) = calls w /\ results (setToken a r w) = results w.
Proof.
  unfold setToken.
  destruct (truthy (default_arg JNull r)), (truthy a), (is_null (default_arg JNull r)); done.
Qed.

Lemma makeRequest_eq rid n w c :
  calls w !! rid = Some c ->
  makeRequest rid n w
  = let cfg := config_for (token w) (deref (c_options c) w) in
    set_inflight (inflight w ++ [length (net w)])
      (set_net (net w ++ [({| f_url := c_url c; f_config := cfg |}, KFetch rid n)])
         (set_heap (heap w ++ [cfg]) w)).
Proof.
  intros Hc. unfold makeRequest. rewrite Hc.
  unfold alloc, store, fetch. simpl.
  rewrite !deref_set_heap, !set_heap_set_heap, lookup_snoc_length. simpl.
  rewrite insert_snoc_length, lookup_snoc_length. done.
Qed.

Lemma makeRequest_unknown rid n w : calls w !! rid = None -> makeRequest rid n w = w.
Proof. intros Hc. unfold makeRequest. by rewrite Hc. Qed.

(** ** The invariant *)

Lemma filter_filter_comm {A} (P Q : A -> bool) (l : list A) :
  List.filter P (List.filter Q l) = List.filter Q (List.filter P l).
Proof.
  induction l as [|x l IH]; simpl; [done|].
  destruct (P x) eqn:HP, (Q x) eqn:HQ; simpl; rewrite ?HP, ?HQ, IH; done.
Qed.

Lemma filter_ext_in_bool {A} (P Q : A -> bool) (l : list A) :
  (forall x, In x l -> P x = Q x) -> List.filter P l = List.filter Q l.
Proof.
  induction l as [|x l IH]; simpl; intros H; [done|].
  rewrite (H x) by by left. rewrite IH; [done|].
  intros y Hy. apply H. by right.
Qed.

Lemma is_refresh_snoc net0 e id :
  id < length net0 -> is_refresh (net0 ++ [e]) id = is_refresh net0 id.
Proof. intros Hlt. unfold is_refresh. by rewrite lookup_app_l. Qed.

Lemma is_refresh_new net0 e :
  is_refresh (net0 ++ [e]) (length net0)
  = match snd e with KRefresh => true | KFetch _ _ => false end.
Proof.
  unfold is_refresh. rewrite lookup_snoc_length. by destruct e as [fc []].
Qed.

Lemma outstanding_snoc net0 inflight0 e :
  Forall (fun id => id < length net0) inflight0 ->
  List.filter (is_refresh (net0 ++ [e])) (inflight0 ++ [length net0])
  = List.filter (is_refresh net0) inflight0
    ++ match snd e with KRefresh => [length net0] | KFetch _ _ => [] end.
Proof.
  intros Hlt. rewrite List.filter_app. f_equal.
  - apply filter_ext_in_bool. intros id Hin.
    apply is_refresh_snoc. rewrite Forall_forall in Hlt.
    apply Hlt. by apply list_elem_of_In.
  - simpl. rewrite is_refresh_new. by destruct (snd e).
Qed.

Lemma wf_same w w' :
  refreshPromise w' = refreshPromise w -> length (heap w') = length (heap w) ->
  net w' = net w -> inflight w' = inflight w -> calls w' = calls w ->
  wf w -> wf w'.
Proof.
  intros Hp Hh Hn Hi Hc [H1 H2 H3 H4 H5 H6].
  constructor; unfold outstanding_refreshes in *; rewrite ?Hp, ?Hh, ?Hn, ?Hi, ?Hc; done.
Qed.

Lemma wf_heap_grow w h : length (heap w) <= length h -> wf w -> wf (set_heap h w).
Proof.
  intros Hle [H1 H2 H3 H4 H5 H6]. constructor; simpl; try done.
  eapply Forall_impl; [exact H4|]. simpl. intros c Hc. lia.
Qed.

Lemma wf_fetch w fc k :
  match k with
  | KFetch rid _ => rid < length (calls w)
  | KRefresh => refreshPromise w = None
  end ->
  wf w ->
  wf (set_refreshPromise
        match k with
        | KFetch _ _ => refreshPromise w
        | KRefresh => Some {| pid := length (net w); waiters := [] |}
        end
        (set_inflight (inflight w ++ [length (net w)])
           (set_net (net w ++ [(fc, k)]) w))).
Proof.
  intros Hk [H1 H2 H3 H4 H5 H6]. constructor; simpl.
  - apply Forall_app. split.
    + eapply Forall_impl; [exact H1|]. simpl. intros id Hid.
      rewrite length_app. simpl. lia.
    + constructor; [|done]. rewrite length_app. simpl. lia.
  - apply NoDup_app. split; [done|]. split; [|apply NoDup_singleton].
    intros id Hid Hnew. apply list_elem_of_singleton in Hnew. subst id.
    rewrite Forall_forall in H1. specialize (H1 _ Hid). lia.
  - unfold outstanding_refreshes in *. simpl.
    rewrite outstanding_snoc by done. simpl. rewrite H3.
    destruct k; simpl; [by rewrite app_nil_r | by rewrite Hk].
  - done.
  - destruct k; simpl; [done|]. intros p [= <-]. simpl. done.
  - apply Forall_app. split; [done|]. constructor; [|done]. simpl. by destruct k.
Qed.

Lemma wf_await rid w : rid < length (calls w) -> wf w -> wf (await_refresh rid w).
Proof.
  intros Hrid Hwf. unfold await_refresh.
  destruct (refreshPromise w) as [p|] eqn:Hp; [|done].
  destruct Hwf as [H1 H2 H3 H4 H5 H6]. constructor; simpl; try done.
  - unfold outstanding_refreshes in *. simpl. by rewrite H3, Hp.
  - intros q [= <-]. simpl. apply Forall_app. split; [by apply H5|].
    by constructor.
Qed.

Lemma wf_add_call w c :
  c_options c < length (heap w) -> wf w -> wf (set_calls (calls w ++ [c]) w).
Proof.
  intros Hc [H1 H2 H3 H4 H5 H6]. constructor; simpl; try done.
  - apply Forall_app. split; [done|]. by constructor.
  - intros p Hp. eapply Forall_impl; [exact (H5 p Hp)|]. simpl.
    intros rid Hrid. rewrite length_app. simpl. lia.
  - eapply Forall_impl; [exact H6|]. simpl. intros [fc [rid n|]]; simpl; [|done].
    rewrite length_app. simpl. lia.
Qed.

Lemma wf_remove_fetch w id fc rid n :
  net w !! id = Some (fc, KFetch rid n) -> wf w ->
  wf (set_inflight (List.filter (fun i => negb (Nat.eqb id i)) (inflight w)) w).
Proof.
  intros Hid [H1 H2 H3 H4 H5 H6]. constructor; simpl; try done.
  - apply Forall_forall. intros i Hi. rewrite Forall_forall in H1. apply H1.
    apply list_elem_of_In, List.filter_In in Hi as [Hi _]. by apply list_elem_of_In.
  - apply NoDup_ListNoDup, List.NoDup_filter. by apply NoDup_ListNoDup.
  - unfold outstanding_refreshes in *. simpl.
    rewrite filter_filter_comm, H3.
    destruct (refreshPromise w) as [p|] eqn:Hp; simpl; [|done].
    destruct (Nat.eqb id (pid p)) eqn:E; simpl; [|done].
    apply Nat.eqb_eq in E. subst id.
    assert (In (pid p) (List.filter (is_refresh (net w)) (inflight w))) as Hin
      by (rewrite H3; by left).
    apply List.filter_In in Hin as [_ Hin]. unfold is_refresh in Hin.
    by rewrite Hid in Hin.
Qed.

Lemma wf_remove_refresh w id fc :
  In id (inflight w) -> net w !! id = Some (fc, KRefresh) -> wf w ->
  wf (set_refreshPromise None
        (set_inflight (List.filter (fun i => negb (Nat.eqb id i)) (inflight w)) w))
  /\ exists p, refreshPromise w = Some p /\ pid p = id.
Proof.
  intros Hin Hid [H1 H2 H3 H4 H5 H6].
  assert (In id (outstanding_refreshes w)) as Hout.
  { apply List.filter_In. split; [done|]. unfold is_refresh. by rewrite Hid. }
  rewrite H3 in Hout.
  destruct (refreshPromise w) as [p|] eqn:Hp; [|done].
  destruct Hout as [Hout|[]]. split; [|by exists p].
  constructor; simpl; try done.
  - apply Forall_forall. intros i Hi. rewrite Forall_forall in H1. apply H1.
    apply list_elem_of_In, List.filter_In in Hi as [Hi _]. by apply list_elem_of_In.
  - apply NoDup_ListNoDup, List.NoDup_filter. by apply NoDup_ListNoDup.
  - unfold outstanding_refreshes in *. simpl.
    rewrite filter_filter_comm, H3. simpl. rewrite Hout, Nat.eqb_refl. done.
Qed.

Lemma wf_makeRequest rid n w :
  rid < length (calls w) -> wf w ->
  wf (makeRequest rid n w) /\ calls (makeRequest rid n w) = calls w.
Proof.
  intros Hrid Hwf.
  destruct (lookup_lt_is_Some_2 (calls w) rid Hrid) as [c Hc].
  rewrite (makeRequest_eq rid n w c Hc). simpl. split; [|done].
  set (cfg := config_for (token w) (deref (c_options c) w)).
  eapply wf_same; [..|apply (wf_fetch (set_heap (heap w ++ [cfg]) w)
                           {| f_url := c_url c; f_config := cfg |} (KFetch rid n))];
    try done.
  apply wf_heap_grow; [|done]. rewrite length_app. lia.
Qed.

Lemma wf_tokens_only w w' :
  refreshPromise w' = refreshPromise w -> heap w' = heap w -> net w' = net w ->
  inflight w' = inflight w -> calls w' = calls w -> wf w -> wf w'.
Proof. intros Hp Hh. apply wf_same; [done | by rewrite Hh]. Qed.

Lemma wf_setToken a r w : wf w -> wf (setToken a r w).
Proof.
  destruct (setToken_frame a r w) as (Hp & _ & Hh & Hn & Hi & Hc & _).
  by apply wf_tokens_only.
Qed.

Lemma wf_clearTokens w : wf w -> wf (clearTokens w).
Proof. by apply wf_tokens_only. Qed.

Lemma wf_refresh_failed rid w : wf w -> wf (refresh_failed rid w).
Proof. by apply wf_tokens_only. Qed.

Lemma wf_finish rid out w : wf w -> wf (finish rid out w).
Proof. by apply wf_tokens_only. Qed.

Lemma wf_refreshAccessToken w :
  wf w ->
  wf (snd (refreshAccessToken w))
  /\ calls (snd (refreshAccessToken w)) = calls w.
Proof.
  intros Hwf. unfold refreshAccessToken.
  destruct (truthy (refreshToken w)); simpl; [|done].
  destruct (refreshPromise w) as [p|] eqn:Hp; simpl; [done|].
  split; [|done]. by apply (wf_fetch w _ KRefresh).
Qed.

Lemma wf_makeRequest_response rid n r w :
  rid < length (calls w) -> wf w -> wf (makeRequest_response rid n r w).
Proof.
  intros Hrid Hwf. unfold makeRequest_response.
  destruct r as [reason|status body]; [by apply wf_finish|].
  destruct ((status =? 401)%Z && Nat.eqb n 0 && truthy (refreshToken w)).
  - destruct (wf_refreshAccessToken w Hwf) as [Hwf' Hcalls].
    destruct (refreshAccessToken w) as [[e|p] w']; simpl in *.
    + by apply wf_refresh_failed.
    + apply wf_await; [by rewrite Hcalls | done].
  - destruct (negb (ok status)).
    + destruct (GetV _ "detail"); by apply wf_finish.
    + destruct body; by apply wf_finish.
Qed.

Lemma wf_resume_all out ws w :
  Forall (fun rid => rid < length (calls w)) ws -> wf w ->
  wf (fold_left (resume out) ws w).
Proof.
  revert w. induction ws as [|rid ws IH]; intros w Hws Hwf; simpl; [done|].
  apply Forall_cons in Hws as [Hrid Hws].
  destruct out as [v|e]; simpl.
  - destruct (wf_makeRequest rid 1 w Hrid Hwf) as [Hwf' Hcalls].
    apply IH; [by rewrite Hcalls | done].
  - apply IH; [done | by apply wf_refresh_failed].
Qed.

Lemma refresh_chain_frame r w :
  refreshPromise (snd (refresh_chain r w)) = None
  /\ heap (snd (refresh_chain r w)) = heap w
  /\ net (snd (refresh_chain r w)) = net w
  /\ inflight (snd (refresh_chain r w)) = inflight w
  /\ calls (snd (refresh_chain r w)) = calls w
  /\ results (snd (refresh_chain r w)) = results w
  /\ href (snd (refresh_chain r w)) = href w.
Proof.
  unfold refresh_chain, refresh_then.
  destruct r as [reason|status body]; [done|].
  destruct (negb (ok status)); [done|].
  destruct body as [data|]; [|done].
  destruct (GetV data "access_token") as [a|]; [|done].
  destruct (GetV data "refresh_token") as [rt|]; [|done].
  simpl. destruct (setToken_frame a rt w) as (Hp & Hhr & Hh & Hn & Hi & Hc & Hr).
  done.
Qed.

Lemma wf_settle id r w : wf w -> wf (settle id r w).
Proof.
  intros Hwf. unfold settle.
  destruct (existsb (Nat.eqb id) (inflight w)) eqn:Hex; [|done].
  apply existsb_exists in Hex as (i & Hin & Hi). apply Nat.eqb_eq in Hi. subst i.
  simpl. destruct (net w !! id) as [[fc [rid n|]]|] eqn:Hid.
  - apply wf_makeRequest_response.
    + simpl. destruct Hwf as [_ _ _ _ _ H6]. rewrite Forall_forall in H6.
      apply (H6 (fc, KFetch rid n)). by apply list_elem_of_lookup_2 in Hid.
    + by eapply wf_remove_fetch.
  - destruct (wf_remove_refresh w id fc Hin Hid Hwf) as [Hwf' (p & Hp & _)].
    unfold refresh_settled. simpl. rewrite Hp.
    set (w1 := set_inflight _ w) in *.
    destruct (refresh_chain_frame r w1) as (Hp2 & Hh2 & Hn2 & Hi2 & Hc2 & _).
    destruct (refresh_chain r w1) as [out w2]. simpl in *.
    apply wf_resume_all.
    + rewrite Hc2. simpl. by apply (wf_waiters w Hwf).
    + eapply wf_tokens_only; [| | | | |exact Hwf']; simpl; done.
  - destruct Hwf as [H1 _ _ _ _ _]. rewrite Forall_forall in H1.
    apply lookup_ge_None in Hid. apply list_elem_of_In in Hin.
    specialize (H1 _ Hin). lia.
Qed.

Lemma wf_request endpoint options w :
  match options with Some r => r < length (heap w) | None => True end ->
  wf w -> wf (snd (request endpoint options w)).
Proof.
  intros Hopt Hwf. unfold request.
  destruct options as [r|]; simpl.
  - apply wf_makeRequest; simpl.
    + rewrite length_app. simpl. lia.
    + by apply wf_add_call.
  - set (w1 := set_heap (heap w ++ [[]]) w).
    assert (wf w1) as Hwf1.
    { apply wf_heap_grow; [|done]. rewrite length_app. lia. }
    apply wf_makeRequest; simpl.
    + rewrite length_app. simpl. lia.
    + apply (wf_add_call w1); [|done]. simpl. rewrite length_app. simpl. lia.
Qed.

Lemma wf_act w a : wf w -> wf (act w a).
Proof.
  intros Hwf. destruct a as [o|endpoint [r|]|id r|a r| |]; unfold act.
  - apply wf_heap_grow; [|done]. rewrite length_app. lia.
  - destruct (r <? length (heap w)) eqn:Hr; [|done].
    apply wf_request; [|done]. by apply Nat.ltb_lt.
  - by apply wf_request.
  - by apply wf_settle.
  - by apply wf_setToken.
  - by apply wf_clearTokens.
  - by apply wf_refreshAccessToken.
Qed.

Lemma wf_run acts w : wf w -> wf (run acts w).
Proof.
  revert w. induction acts as [|a acts IH]; intros w Hwf; simpl; [done|].
  apply IH. by apply wf_act.
Qed.

Lemma wf_constructor ls objs : wf (constructor ls objs).
Proof.
  constructor; simpl; try done.
  - apply NoDup_nil_2.
Qed.

Lemma wf_store r o w : wf w -> wf (store r o w).
Proof.
  intros Hwf. unfold store. apply wf_heap_grow; [|done].
  by rewrite length_insert.
Qed.

Lemma wf_happen w e : wf w -> wf (happen w e).
Proof. destruct e as [a|r o]; [apply wf_act | apply wf_store]. Qed.

Lemma wf_play es w : wf w -> wf (play es w).
Proof.
  revert w. induction es as [|e es IH]; intros w Hwf; simpl; [done|].
  apply IH. by apply wf_happen.
Qed.

Lemma reachable_wf w : reachable w -> wf w.
Proof. intros (ls & objs & es & ->). apply wf_play, wf_constructor. Qed.

Lemma play_EAct acts : forall w, play (List.map EAct acts) w = run acts w.
Proof. induction acts as [|a acts IH]; intros w; simpl; [done | apply IH]. Qed.

Lemma reachable_play es w : reachable w -> reachable (play es w).
Proof.
  intros (ls & objs & es0 & ->). exists ls, objs, (es0 ++ es).
  unfold play. by rewrite fold_left_app.
Qed.

(** ** Single flight *)

Lemma existsb_eqb_In id l : In id l -> existsb (Nat.eqb id) l = true.
Proof.
  intros Hin. apply existsb_exists. exists id. split; [done|]. apply Nat.eqb_refl.
Qed.

Lemma In_remove_other id id' l :
  id' <> id -> In id' l -> In id' (List.filter (fun i => negb (Nat.eqb id i)) l).
Proof.
  intros Hne Hin. apply List.filter_In. split; [done|].
  apply negb_true_iff, Nat.eqb_neq. congruence.
Qed.

(** A first attempt answered 401 while a refresh is pending joins it: no
    fetch goes out. *)
Lemma settle_401_joins w p id rid body :
  refreshPromise w = Some p -> truthy (refreshToken w) = true ->
  first_attempt w id rid ->
  settle id (Response 401 body) w
  = set_refreshPromise (Some {| pid := pid p; waiters := waiters p ++ [rid] |})
      (set_inflight (List.filter (fun i => negb (Nat.eqb id i)) (inflight w)) w).
Proof.
  intros Hp Hrt [Hin [fc Hid]]. unfold settle.
  rewrite (existsb_eqb_In _ _ Hin). simpl. rewrite Hid.
  unfold makeRequest_response. simpl. rewrite Hrt. simpl.
  unfold refreshAccessToken. simpl. rewrite Hrt, Hp. simpl.
  unfold await_refresh. simpl. by rewrite Hp.
Qed.

(** With no refresh pending it starts one. *)
Lemma settle_401_starts w id rid body :
  refreshPromise w = None -> truthy (refreshToken w) = true ->
  first_attempt w id rid ->
  settle id (Response 401 body) w
  = set_refreshPromise (Some {| pid := length (net w); waiters := [rid] |})
      (set_inflight
         (List.filter (fun i => negb (Nat.eqb id i)) (inflight w) ++ [length (net w)])
         (set_net (net w ++ [(refresh_call w, KRefresh)]) w)).
Proof.
  intros Hp Hrt [Hin [fc Hid]]. unfold settle.
  rewrite (existsb_eqb_In _ _ Hin). simpl. rewrite Hid.
  unfold makeRequest_response. simpl. rewrite Hrt. simpl.
  unfold refreshAccessToken. simpl. rewrite Hrt, Hp. simpl. done.
Qed.

Lemma Forall2_impl_In {A B} (P Q : A -> B -> Prop) l k :
  Forall2 P l k -> (forall x y, In x l -> P x y -> Q x y) -> Forall2 Q l k.
Proof.
  induction 1 as [|x y l k HP _ IH]; intros HPQ; constructor.
  - apply HPQ; [by left | done].
  - apply IH. intros x' y' Hin. apply HPQ. by right.
Qed.

Lemma observe_401_joins body_of ids : forall rids w p,
  refreshPromise w = Some p -> truthy (refreshToken w) = true ->
  NoDup ids -> Forall2 (first_attempt w) ids rids ->
  let w1 := observe_401 body_of ids w in
  refreshPromise w1 = Some {| pid := pid p; waiters := waiters p ++ rids |}
  /\ net w1 = net w /\ same_tokens w w1 /\ heap w1 = heap w /\ calls w1 = calls w
  /\ results w1 = results w /\ href w1 = href w
  /\ forall i, In i (inflight w) -> ~ In i ids -> In i (inflight w1).
Proof.
  induction ids as [|id ids IH]; intros rids w p Hp Hrt Hnd Hall; simpl.
  - apply Forall2_nil_inv_l in Hall. subst rids. rewrite app_nil_r.
    destruct p. unfold same_tokens. done.
  - apply Forall2_cons_inv_l in Hall as (rid & rids' & Hfirst & Hall & ->).
    apply NoDup_cons in Hnd as [Hnotin Hnd].
    rewrite (settle_401_joins w p id rid _ Hp Hrt Hfirst).
    set (w' := set_refreshPromise _ _).
    edestruct (IH rids' w') as (Hp1 & Hnet1 & Hsame1 & Hheap1 & Hcalls1 & Hres1 & Hhref1 & Hin1);
      [done | done | done | |].
    + eapply Forall2_impl_In; [exact Hall|].
      intros id' rid' Hin' [Hinf Hnet]. split; [|done]. simpl.
      apply In_remove_other; [|done]. intros ->.
      by apply Hnotin, list_elem_of_In.
    + simpl in *. rewrite <- app_assoc in Hp1. simpl in Hp1.
      destruct Hsame1 as (Ht1 & Hr1 & Hl1).
      split; [done|]. split; [done|]. split; [done|].
      split; [done|]. split; [done|]. split; [done|]. split; [done|].
      intros i Hi Hni. apply Hin1.
      * apply In_remove_other; [|done]. intros ->. apply Hni. by left.
      * intros Hi'. apply Hni. by right.
Qed.

Lemma attempt_heap_snoc tok w o rid n :
  Forall (fun c => c_options c < length (heap w)) (calls w) ->
  attempt tok (set_heap (heap w ++ [o]) w) rid n = attempt tok w rid n.
Proof.
  intros Hopt. unfold attempt. simpl.
  destruct (calls w !! rid) as [c|] eqn:Hc; [|done].
  rewrite deref_set_heap. unfold deref.
  rewrite Forall_forall in Hopt.
  rewrite lookup_app_l; [done|].
  apply Hopt. by apply list_elem_of_lookup_2 in Hc.
Qed.

Lemma attempt_same tok w w' rid n :
  calls w' = calls w -> heap w' = heap w -> attempt tok w' rid n = attempt tok w rid n.
Proof. intros Hc Hh. unfold attempt, deref. by rewrite Hc, Hh. Qed.

(** The requests that awaited a refresh that succeeded are sent again, each
    with the headers of the token that is in the service at that time. *)
Lemma resume_resolved_all data rids : forall w,
  Forall (fun rid => rid < length (calls w)) rids ->
  Forall (fun c => c_options c < length (heap w)) (calls w) ->
  let w' := fold_left (resume (Resolved data)) rids w in
  exists es,
    net w' = net w ++ es
    /\ Forall2 (fun rid e => attempt (token w) w rid 1 = Some e) rids es
    /\ same_tokens w w' /\ calls w' = calls w
    /\ refreshPromise w' = refreshPromise w
    /\ results w' = results w /\ href w' = href w.
Proof.
  induction rids as [|rid rids IH]; intros w Hrids Hopt; simpl.
  - exists []. rewrite app_nil_r. unfold same_tokens. repeat split; done.
  - apply Forall_cons in Hrids as [Hrid Hrids].
    destruct (lookup_lt_is_Some_2 (calls w) rid Hrid) as [c Hc].
    rewrite (makeRequest_eq rid 1 w c Hc). simpl.
    set (cfg := config_for (token w) (deref (c_options c) w)).
    set (w2 := set_inflight _ _).
    destruct (IH w2) as (es & Hnet & Hes & (Ht & Hr & Hl) & Hcalls & Hp & Hres & Hhref).
    { done. }
    { simpl. eapply Forall_impl; [exact Hopt|]. simpl. intros c' Hc'.
      rewrite length_app. simpl. lia. }
    exists (({| f_url := c_url c; f_config := cfg |}, KFetch rid 1) :: es).
    simpl in *. rewrite Hnet, <- app_assoc. simpl.
    split; [done|]. split.
    + constructor.
      * unfold attempt. by rewrite Hc.
      * eapply Forall2_impl; [exact Hes|]. simpl. intros rid' e' <-.
        symmetry. rewrite <- (attempt_heap_snoc (token w) w cfg rid' 1 Hopt).
        by apply attempt_same.
    + unfold same_tokens. done.
Qed.

(** A refresh that succeeds stores what the response carries before any
    waiting request goes on. *)
Lemma refresh_chain_resolved r w data w' :
  refresh_chain r w = (Resolved data, w') ->
  exists status a rt,
    r = Response status (Some data) /\ ok status = true
    /\ GetV data "access_token" = Some a /\ GetV data "refresh_token" = Some rt
    /\ w' = set_refreshPromise None (setToken a rt w).
Proof.
  unfold refresh_chain, refresh_then.
  destruct r as [reason|status body]; [done|].
  destruct (ok status) eqn:Hok; simpl; [|done].
  destruct body as [d|]; [|done].
  destruct (GetV d "access_token") as [a|] eqn:Ha; [|done].
  destruct (GetV d "refresh_token") as [rt|] eqn:Hr; [|done].
  intros [= <- <-]. by exists status, a, rt.
Qed.

Lemma refresh_chain_success status data a rt w :
  ok status = true ->
  GetV data "access_token" = Some a -> GetV data "refresh_token" = Some rt ->
  refresh_chain (Response status (Some data)) w
  = (Resolved data, set_refreshPromise None (setToken a rt w)).
Proof.
  intros Hok Ha Hr. unfold refresh_chain, refresh_then. by rewrite Hok, Ha, Hr.
Qed.

Lemma token_setToken a r w : token (setToken a r w) = a.
Proof.
  unfold setToken.
  destruct (truthy (default_arg JNull r)), (truthy a), (is_null (default_arg JNull r)); done.
Qed.

Lemma setToken_set_inflight a r i w :
  setToken a r (set_inflight i w) = set_inflight i (setToken a r w).
Proof.
  unfold setToken.
  destruct (truthy (default_arg JNull r)), (truthy a), (is_null (default_arg JNull r)); done.
Qed.

(** On a page that the service can be in, the pending refresh is in flight. *)
Lemma wf_pending_inflight w p :
  wf w -> refreshPromise w = Some p ->
  In (pid p) (inflight w) /\ exists fc, net w !! pid p = Some (fc, KRefresh).
Proof.
  intros Hwf Hp. pose proof (wf_refresh w Hwf) as Hout. rewrite Hp in Hout.
  assert (In (pid p) (outstanding_refreshes w)) as Hin by (rewrite Hout; by left).
  apply List.filter_In in Hin as [Hin Hre]. split; [done|].
  unfold is_refresh in Hre.
  destruct (net w !! pid p) as [[fc [rid n|]]|]; try done. by exists fc.
Qed.

Lemma settle_refresh w p r :
  wf w -> refreshPromise w = Some p ->
  settle (pid p) r w
  = refresh_settled r
      (set_inflight (List.filter (fun i => negb (Nat.eqb (pid p) i)) (inflight w)) w).
Proof.
  intros Hwf Hp. destruct (wf_pending_inflight w p Hwf Hp) as [Hin [fc Hid]].
  unfold settle. rewrite (existsb_eqb_In _ _ Hin). simpl. by rewrite Hid.
Qed.

(** The whole of a successful refresh, seen from the page. *)
Lemma settle_refresh_success w p status data a rt :
  wf w -> refreshPromise w = Some p -> ok status = true ->
  GetV data "access_token" = Some a -> GetV data "refresh_token" = Some rt ->
  let w' := settle (pid p) (Response status (Some data)) w in
  token w' = a
  /\ refreshToken w' = refreshToken (setToken a rt w)
  /\ localStorage w' = localStorage (setToken a rt w)
  /\ refreshPromise w' = None
  /\ results w' = results w
  /\ exists es,
      net w' = net w ++ es
      /\ Forall2 (fun rid e => attempt a w rid 1 = Some e) (waiters p) es.
Proof.
  intros Hwf Hp Hok Ha Hr. simpl.
  rewrite (settle_refresh w p _ Hwf Hp). unfold refresh_settled. simpl.
  rewrite Hp, (refresh_chain_success status data a rt _ Hok Ha Hr).
  set (w1 := set_inflight _ w).
  set (w2 := set_refreshPromise None (setToken a rt w1)).
  destruct (setToken_frame a rt w1) as (Hp2 & Hhr2 & Hh2 & Hn2 & Hi2 & Hc2 & Hres2).
  destruct (resume_resolved_all data (waiters p) w2)
    as (es & Hnet & Hes & (Ht & Hrt & Hl) & Hcalls & Hpr & Hres & Hhref).
  { simpl. rewrite Hc2. simpl. by apply (wf_waiters w Hwf). }
  { simpl. rewrite Hc2, Hh2. simpl. by apply (wf_options w Hwf). }
  simpl in *. rewrite Ht, Hrt, Hl, Hpr, Hres, Hres2, Hnet, Hn2. simpl.
  rewrite token_setToken. subst w1. rewrite setToken_set_inflight.
  split; [done|]. split; [done|]. split; [done|]. split; [done|]. split; [done|].
  exists es. split; [done|].
  eapply Forall2_impl; [exact Hes|]. simpl. intros rid e <-.
  rewrite token_setToken. symmetry. apply attempt_same; simpl; by rewrite ?Hc2, ?Hh2.
Qed.


Lemma first_attempt_lt w id rid : first_attempt w id rid -> id < length (net w).
Proof. intros [_ [fc Hid]]. by apply lookup_lt_Some in Hid. Qed.

(** [ids] first attempts answered 401 with no refresh pending: the first
    starts the refresh, the others join it. *)
Lemma observe_401_single_refresh body_of id ids rid rids w :
  refreshPromise w = None -> truthy (refreshToken w) = true ->
  NoDup (id :: ids) -> Forall2 (first_attempt w) (id :: ids) (rid :: rids) ->
  let w1 := observe_401 body_of (id :: ids) w in
  refreshPromise w1 = Some {| pid := length (net w); waiters := rid :: rids |}
  /\ net w1 = net w ++ [(refresh_call w, KRefresh)]
  /\ same_tokens w w1 /\ heap w1 = heap w /\ calls w1 = calls w
  /\ results w1 = results w.
Proof.
  intros Hp Hrt Hnd Hall. simpl.
  apply Forall2_cons in Hall as [Hfirst Hall].
  apply NoDup_cons in Hnd as [Hnotin Hnd].
  rewrite (settle_401_starts w id rid _ Hp Hrt Hfirst).
  set (w' := set_refreshPromise _ _).
  edestruct (observe_401_joins body_of ids rids w')
    as (Hp1 & Hnet1 & (Ht1 & Hr1 & Hl1) & Hheap1 & Hcalls1 & Hres1 & _);
    [done | done | done | |].
  - eapply Forall2_impl_In; [exact Hall|].
    intros id' rid' Hin' [Hinf [fc Hnet]]. split; simpl.
    + apply in_or_app. left. apply In_remove_other; [|done]. intros ->.
      by apply Hnotin, list_elem_of_In.
    + exists fc. by apply lookup_app_l_Some.
  - simpl in *. unfold same_tokens. done.
Qed.

Lemma wf_observe_401 body_of ids : forall w, wf w -> wf (observe_401 body_of ids w).
Proof.
  induction ids as [|i ids IH]; intros w Hwf; simpl; [done|].
  apply IH. by apply wf_settle.
Qed.

Lemma Forall2_In_l {A B} (P : A -> B -> Prop) l k x :
  Forall2 P l k -> In x l -> exists y, In y k /\ P x y.
Proof.
  induction 1 as [|a b l k Hab _ IH]; intros Hin; [destruct Hin|].
  destruct Hin as [->|Hin].
  - exists b. split; [by left | done].
  - destruct (IH Hin) as (y & Hy & HP). exists y. split; [by right | done].
Qed.

(** ** While the refresh is unanswered *)

Lemma refresh_calls_snoc_fetch w w' fc rid n :
  net w' = net w ++ [(fc, KFetch rid n)] -> refresh_calls w' = refresh_calls w.
Proof.
  intros Hn. unfold refresh_calls. rewrite Hn, List.filter_app. apply app_nil_r.
Qed.

Lemma makeRequest_keeps_refresh rid n w :
  refresh_calls (makeRequest rid n w) = refresh_calls w
  /\ refreshPromise (makeRequest rid n w) = refreshPromise w.
Proof.
  destruct (calls w !! rid) as [c|] eqn:Hc.
  - rewrite (makeRequest_eq rid n w c Hc). cbn zeta. split; [|done].
    eapply refresh_calls_snoc_fetch. reflexivity.
  - by rewrite makeRequest_unknown.
Qed.

Lemma request_keeps_refresh endpoint options w :
  refresh_calls (snd (request endpoint options w)) = refresh_calls w
  /\ refreshPromise (snd (request endpoint options w)) = refreshPromise w.
Proof.
  unfold request. destruct options as [r|]; cbn [snd alloc];
    match goal with
    | |- context [makeRequest ?rid 0 ?v] =>
        destruct (makeRequest_keeps_refresh rid 0 v) as [-> ->]
    end; done.
Qed.

Lemma same_promise p : p = {| pid := pid p; waiters := waiters p ++ [] |}.
Proof. destruct p. cbn. by rewrite app_nil_r. Qed.

(** Whatever happens on the page other than the answer to the pending
    refresh, the refresh stays pending and no refresh call goes out. *)
Lemma pending_refresh_kept w p e :
  wf w -> refreshPromise w = Some p -> answers (pid p) e = false ->
  refresh_calls (happen w e) = refresh_calls w
  /\ exists ws,
      refreshPromise (happen w e) = Some {| pid := pid p; waiters := waiters p ++ ws |}.
Proof.
  intros Hwf Hp Hans.
  assert (forall w', refresh_calls w' = refresh_calls w ->
                     refreshPromise w' = refreshPromise w ->
                     refresh_calls w' = refresh_calls w
                     /\ exists ws, refreshPromise w'
                                   = Some {| pid := pid p; waiters := waiters p ++ ws |})
    as Hsame.
  { intros w' Hc Hp'. split; [done|]. exists []. rewrite Hp', Hp. f_equal.
    apply same_promise. }
  destruct e as [[o|endpoint [r|]|id r|a r| |]|r o]; cbn [happen act].
  - by apply Hsame.
  - destruct (r <? length (heap w)); [|by apply Hsame].
    destruct (request_keeps_refresh endpoint (Some r) w). by apply Hsame.
  - destruct (request_keeps_refresh endpoint None w). by apply Hsame.
  - cbn [answers] in Hans. unfold settle.
    destruct (existsb (Nat.eqb id) (inflight w)) eqn:Hex; [|by apply Hsame].
    cbn [net set_inflight].
    destruct (net w !! id) as [[fc [rid n|]]|] eqn:Hid; [| |by apply Hsame].
    + set (w1 := set_inflight _ w).
      unfold makeRequest_response.
      destruct r as [reason|status body]; [by apply Hsame|].
      change (refreshToken w1) with (refreshToken w).
      destruct ((status =? 401)%Z && Nat.eqb n 0 && truthy (refreshToken w)) eqn:Hg.
      * apply andb_true_iff in Hg as [_ Hrt].
        rewrite (refreshAccessToken_join w1 p Hrt Hp).
        unfold await_refresh. change (refreshPromise w1) with (refreshPromise w).
        rewrite Hp. split; [done|]. by exists [rid].
      * destruct (negb (ok status)).
        -- destruct (GetV _ "detail"); by apply Hsame.
        -- destruct body; by apply Hsame.
    + exfalso. apply existsb_exists in Hex as (i & Hin & Hi).
      apply Nat.eqb_eq in Hi. subst i.
      assert (In id (outstanding_refreshes w)) as Hout.
      { apply List.filter_In. split; [done|]. unfold is_refresh. by rewrite Hid. }
      rewrite (wf_refresh w Hwf), Hp in Hout.
      destruct Hout as [Heq|[]]. apply Nat.eqb_neq in Hans. congruence.
  - destruct (setToken_frame a r w) as (Hp' & _ & _ & Hn & _).
    apply Hsame; [|done]. unfold refresh_calls. by rewrite Hn.
  - by apply Hsame.
  - unfold refreshAccessToken. destruct (truthy (refreshToken w)); cbn [negb snd].
    + rewrite Hp. by apply Hsame.
    + by apply Hsame.
  - by apply Hsame.
Qed.

Lemma pending_refresh_kept_play es : forall w p,
  wf w -> refreshPromise w = Some p ->
  Forall (fun e => answers (pid p) e = false) es ->
  refresh_calls (play es w) = refresh_calls w
  /\ exists ws,
      refreshPromise (play es w) = Some {| pid := pid p; waiters := waiters p ++ ws |}.
Proof.
  induction es as [|e es IH]; intros w p Hwf Hp Hes; cbn [play fold_left].
  - split; [done|]. exists []. rewrite Hp. f_equal. apply same_promise.
  - apply Forall_cons in Hes as [He Hes].
    destruct (pending_refresh_kept w p e Hwf Hp He) as (Hc & ws & Hp1).
    destruct (IH (happen w e) _ (wf_happen w e Hwf) Hp1 Hes) as (Hc2 & ws2 & Hp2).
    fold (play es (happen w e)) in Hc2, Hp2 |- *.
    split; [congruence|]. exists (ws ++ ws2). rewrite Hp2. cbn [pid waiters].
    by rewrite app_assoc.
Qed.

(** C2 as the claim has it, refuted.  The two requests of [two_out] are in
    flight together and both are answered 401; the answer to the refresh
    arrives between the two, and two refresh calls go out.  And a call of
    [refreshAccessToken] while a refresh is pending does not get that
    refresh when the refresh token has been cleared meanwhile: it throws. *)
Lemma late_401_starts_second_refresh :
  (inflight two_out = [0; 1]
   /\ List.map snd (net two_out) = [KFetch 0 0; KFetch 1 0]
   /\ refreshPromise two_out = None
   /\ List.map snd (net late_401)
      = [KFetch 0 0; KFetch 1 0; KRefresh; KFetch 0 1; KRefresh]
   /\ length (refresh_calls late_401) = 2)
  /\ (refreshPromise (run [AClearTokens] two_waiting)
      = Some {| pid := 2; waiters := [0; 1] |}
      /\ fst (refreshAccessToken (run [AClearTokens] two_waiting))
         = RefreshThrows (Error "No refresh token available" None None)).
Proof. split; repeat split; vm_compute; reflexivity. Qed.

(** C2, amended: on every page the service can be in, at most one refresh
    call is in flight, and one is in flight exactly when [refreshPromise] is
    set.  A call of [refreshAccessToken] while the promise is set changes
    nothing (no fetch goes out); it returns that same promise when a
    refresh token is stored and throws when none is.  As long as the
    pending refresh is not answered, nothing that happens on the page
    sends another refresh call, and the requests that started to wait stay
    waiting.  When the first attempts of N requests are answered 401 one
    after the other, with a refresh token stored and no refresh pending,
    one refresh call goes out, and once it succeeds each of the N requests
    is sent again, built from the access token that the refresh response
    carries. *)
Theorem single_flight_refresh (w : World) (Hreach : reachable w) :
  (length (outstanding_refreshes w) <= 1
   /\ (outstanding_refreshes w = [] <-> refreshPromise w = None))
  /\ (forall p, refreshPromise w = Some p ->
        snd (refreshAccessToken w) = w
        /\ (truthy (refreshToken w) = true ->
            fst (refreshAccessToken w) = RefreshPending (pid p))
        /\ (truthy (refreshToken w) = false ->
            fst (refreshAccessToken w)
            = RefreshThrows (Error "No refresh token available" None None)))
  /\ (forall p es,
        refreshPromise w = Some p ->
        Forall (fun e => answers (pid p) e = false) es ->
        refresh_calls (play es w) = refresh_calls w
        /\ exists ws,
            refreshPromise (play es w)
            = Some {| pid := pid p; waiters := waiters p ++ ws |})
  /\ (forall body_of id ids rid rids status data a rt,
        refreshPromise w = None -> truthy (refreshToken w) = true ->
        NoDup (id :: ids) ->
        Forall2 (first_attempt w) (id :: ids) (rid :: rids) ->
        ok status = true ->
        GetV data "access_token" = Some a ->
        GetV data "refresh_token" = Some rt ->
        let w1 := observe_401 body_of (id :: ids) w in
        let w2 := settle (length (net w)) (Response status (Some data)) w1 in
        net w1 = net w ++ [(refresh_call w, KRefresh)]
        /\ refreshPromise w1
           = Some {| pid := length (net w); waiters := rid :: rids |}
        /\ outstanding_refreshes w1 = [length (net w)]
        /\ exists es,
            net w2 = net w1 ++ es
            /\ Forall2 (fun rid e => attempt a w rid 1 = Some e) (rid :: rids) es).
Proof.
  pose proof (reachable_wf w Hreach) as Hwf.
  split; [|split; [|split]].
  - rewrite (wf_refresh w Hwf).
    destruct (refreshPromise w); simpl; split; try lia; done.
  - intros p Hp. unfold refreshAccessToken. rewrite Hp.
    by destruct (truthy (refreshToken w)).
  - intros p es Hp Hes. by apply pending_refresh_kept_play.
  - intros body_of id ids rid rids status data a rt Hp Hrt Hnd Hall Hok Ha Hr w1 w2.
    destruct (observe_401_single_refresh body_of id ids rid rids w Hp Hrt Hnd Hall)
      as (Hp1 & Hnet1 & Hsame1 & Hheap1 & Hcalls1 & Hres1).
    fold w1 in Hp1, Hnet1, Hsame1, Hheap1, Hcalls1, Hres1.
    assert (wf w1) as Hwf1 by by apply wf_observe_401.
    split; [done|]. split; [done|]. split.
    { rewrite (wf_refresh w1 Hwf1), Hp1. done. }
    destruct (settle_refresh_success w1 _ status data a rt Hwf1 Hp1 Hok Ha Hr)
      as (_ & _ & _ & _ & _ & es & Hnet2 & Hes).
    simpl in Hnet2, Hes. fold w2 in Hnet2. exists es. split; [done|].
    eapply Forall2_impl; [exact Hes|]. simpl. intros rid' e <-.
    symmetry. by apply attempt_same.
Qed.

Lemma reachable_run acts w : reachable w -> reachable (run acts w).
Proof. rewrite <- play_EAct. apply reachable_play. Qed.

Lemma reachable_constructor ls objs : reachable (constructor ls objs).
Proof. by exists ls, objs, []. Qed.

Lemma reachable_signed_in : reachable signed_in.
Proof. unfold signed_in. apply reachable_constructor. Qed.

Lemma reachable_two_out : reachable two_out.
Proof. unfold two_out. apply reachable_run, reachable_signed_in. Qed.

Lemma reachable_two_waiting : reachable two_waiting.
Proof. unfold two_waiting. apply reachable_run, reachable_two_out. Qed.

Lemma single_flight_refresh_witness :
  reachable two_out
  /\ length (outstanding_refreshes two_out) <= 1
  /\ snd (refreshAccessToken two_waiting) = two_waiting
  /\ refresh_calls
       (play [EAct (ARequest "/auth/me" None); EAssign 0 []; EAct AClearTokens;
              EAct (ASettle 3 (Response 401 None))] two_waiting)
     = refresh_calls two_waiting
  /\ net (observe_401 (fun _ => None) [0; 1] two_out)
     = net two_out ++ [(refresh_call two_out, KRefresh)]
  /\ exists es,
      net (settle (length (net two_out)) (Response 200 (Some fresh_pair))
             (observe_401 (fun _ => None) [0; 1] two_out))
      = net (observe_401 (fun _ => None) [0; 1] two_out) ++ es
      /\ Forall2 (fun rid e => attempt (JStr "a1") two_out rid 1 = Some e) [0; 1] es.
Proof.
  pose proof reachable_two_out as Hout.
  pose proof reachable_two_waiting as Hwaiting.
  assert (refreshPromise two_waiting = Some {| pid := 2; waiters := [0; 1] |}) as Hp
    by (vm_compute; reflexivity).
  assert (refreshPromise two_out = None) as Hnone by (vm_compute; reflexivity).
  assert (truthy (refreshToken two_out) = true) as Hrt by (vm_compute; reflexivity).
  assert (Forall2 (first_attempt two_out) [0; 1] [0; 1]) as Hfirst.
  { constructor; [|constructor; [|constructor]].
    - split; [vm_compute; by left | eexists; vm_compute; reflexivity].
    - split; [vm_compute; right; by left | eexists; vm_compute; reflexivity]. }
  assert (NoDup [0; 1]) as Hnd.
  { apply NoDup_cons. split; [|apply NoDup_singleton].
    intros Hin. apply list_elem_of_singleton in Hin. discriminate Hin. }
  assert (Forall (fun e => answers 2 e = false)
            [EAct (ARequest "/auth/me" None); EAssign 0 []; EAct AClearTokens;
             EAct (ASettle 3 (Response 401 None))]) as Hes.
  { repeat constructor. }
  split; [exact Hout|].
  destruct (single_flight_refresh two_out Hout) as ((Hone & _) & _ & _ & Hmany).
  destruct (single_flight_refresh two_waiting Hwaiting) as (_ & Hjoin & Hkept & _).
  split; [exact Hone|].
  split; [exact (proj1 (Hjoin _ Hp))|].
  split; [exact (proj1 (Hkept _ _ Hp Hes))|].
  destruct (Hmany (fun _ => None) 0 [1] 0 [1] 200%Z fresh_pair (JStr "a1") (JStr "r1")
              Hnone Hrt Hnd Hfirst eq_refl eq_refl eq_refl)
    as (Hnet1 & _ & _ & es & Hnet2 & Hes2).
  split; [exact Hnet1|]. exists es. split; [exact Hnet2 | exact Hes2].
Defined.

Lemma setToken_access_stored a r w :
  truthy a = true -> localStorage (setToken a r w) !! "access_token" = Some (ToString a).
Proof.
  intros Ha. unfold setToken. rewrite Ha.
  destruct (truthy (default_arg JNull r)); cbn [localStorage setItem set_localStorage].
  - rewrite lookup_insert_ne by done.
    destruct (truthy (default_arg JNull r)); apply lookup_insert_eq.
  - destruct (is_null (default_arg JNull r));
      cbn [localStorage removeItem setItem set_localStorage set_token].
    + rewrite lookup_delete_ne by done. apply lookup_insert_eq.
    + apply lookup_insert_eq.
Qed.

Lemma setToken_refresh_stored a r w :
  truthy r = true ->
  refreshToken (setToken a r w) = r
  /\ localStorage (setToken a r w) !! "refresh_token" = Some (ToString r).
Proof.
  intros Hr. unfold setToken. rewrite (default_arg_truthy r Hr), Hr.
  destruct (truthy a); cbn; (split; [done | apply lookup_insert_eq]).
Qed.

(** C4 as the claim has it, refuted: a request whose options carry their
    own [Authorization] header awaits a refresh that succeeds; the service
    then holds the new access token, and the request is sent again with
    the header it was first sent with. *)
Lemma own_headers_resubmitted_unchanged :
  token own_headers_retried = JStr "a1"
  /\ List.map (fun e => (obj_get "headers" (f_config (fst e)), snd e))
       (List.filter (issued_for 0) (net own_headers_retried))
     = [(JObj [("Authorization", JStr "Bearer a0")], KFetch 0 0);
        (JObj [("Authorization", JStr "Bearer a0")], KFetch 0 1)].
Proof. split; vm_compute; reflexivity. Qed.

(** C4, amended: when the refresh succeeds, [setToken] has run by the time
    the refresh promise resolves and is cleared: the access token of the
    response is in the service and, when truthy, in [localStorage]; a
    truthy refresh token of the response is in both.  Every request that
    awaited the refresh is then sent again, built from that new access
    token: when its options have no [headers] of their own the retry goes
    out with the headers of the new token, and none of these with the token
    it was first sent with; when they have, the retry goes out with those
    headers, whatever they hold. *)
Theorem refresh_success_before_resubmission (w : World) (p : Promise)
    (r : FetchResult) (data : jsval)
    (Hreach : reachable w) (Hpending : refreshPromise w = Some p)
    (Hsucceeds : fst (refresh_chain r w) = Resolved data) :
  exists a rt,
    GetV data "access_token" = Some a /\ GetV data "refresh_token" = Some rt
    /\ snd (refresh_chain r w) = set_refreshPromise None (setToken a rt w)
    /\ token (snd (refresh_chain r w)) = a
    /\ (truthy a = true ->
        localStorage (snd (refresh_chain r w)) !! "access_token" = Some (ToString a))
    /\ (truthy rt = true ->
        refreshToken (snd (refresh_chain r w)) = rt
        /\ localStorage (snd (refresh_chain r w)) !! "refresh_token" = Some (ToString rt))
    /\ token (settle (pid p) r w) = a
    /\ (exists es,
          net (settle (pid p) r w) = net w ++ es
          /\ Forall2 (fun rid e => attempt a w rid 1 = Some e) (waiters p) es)
    /\ (forall rid c,
          In rid (waiters p) -> calls w !! rid = Some c ->
          let o := deref (c_options c) w in
          In ({| f_url := c_url c; f_config := config_for a o |}, KFetch rid 1)
             (net (settle (pid p) r w))
          /\ (obj_has "headers" o = false ->
              obj_get "headers" (config_for a o) = JObj (auth_headers a)
              /\ obj_get "Authorization" (auth_headers a)
                 = if truthy a then JStr ("Bearer " +:+ ToString a) else JUndefined)
          /\ (obj_has "headers" o = true ->
              forall tok, config_for a o = config_for tok o)).
Proof.
  pose proof (reachable_wf w Hreach) as Hwf.
  destruct (refresh_chain r w) as [out w'] eqn:Hchain. simpl in Hsucceeds. subst out.
  destruct (refresh_chain_resolved r w data w' Hchain)
    as (status & a & rt & -> & Hok & Ha & Hr & ->).
  exists a, rt. cbn [snd].
  destruct (settle_refresh_success w p status data a rt Hwf Hpending Hok Ha Hr)
    as (Ht & _ & _ & _ & _ & es & Hnet & Hes).
  cbn zeta in Ht, Hnet.
  split; [done|]. split; [done|]. split; [done|].
  split; [apply token_setToken|].
  split; [intros Hta; by apply setToken_access_stored|].
  split; [intros Htr; by apply setToken_refresh_stored|].
  split; [exact Ht|].
  split; [by exists es|].
  intros rid c Hin Hc. split; [|split].
  - rewrite Hnet. apply in_or_app. right.
    destruct (Forall2_In_l _ _ _ rid Hes Hin) as (e & He & Hatt).
    unfold attempt in Hatt. rewrite Hc in Hatt. by injection Hatt as <-.
  - intros Hno. split; [by apply config_for_built_headers|].
    unfold auth_headers. by destruct (truthy a).
  - intros Hown tok. by apply config_for_own_headers.
Qed.

Lemma refresh_success_before_resubmission_witness :
  reachable two_waiting
  /\ refreshPromise two_waiting = Some {| pid := 2; waiters := [0; 1]%nat |}
  /\ fst (refresh_chain (Response 200 (Some fresh_pair)) two_waiting) = Resolved fresh_pair
  /\ token two_waiting = JStr "a0"
  /\ token (settle 2 (Response 200 (Some fresh_pair)) two_waiting) = JStr "a1"
  /\ exists es,
      net (settle 2 (Response 200 (Some fresh_pair)) two_waiting)
      = net two_waiting ++ es
      /\ Forall2 (fun rid e => attempt (JStr "a1") two_waiting rid 1 = Some e)
                 [0; 1]%nat es.
Proof.
  pose proof reachable_two_waiting as Hreach.
  assert (refreshPromise two_waiting = Some {| pid := 2; waiters := [0; 1]%nat |}) as Hp
    by (vm_compute; reflexivity).
  assert (fst (refresh_chain (Response 200 (Some fresh_pair)) two_waiting)
          = Resolved fresh_pair) as Hsucc by (vm_compute; reflexivity).
  split; [exact Hreach|]. split; [exact Hp|]. split; [exact Hsucc|].
  split; [vm_compute; reflexivity|].
  destruct (refresh_success_before_resubmission two_waiting
              {| pid := 2; waiters := [0; 1]%nat |}
              (Response 200 (Some fresh_pair)) fresh_pair Hreach Hp Hsucc)
    as (a & rt & Ha & _ & _ & _ & _ & _ & Htok & Hes & _).
  injection Ha as <-. split; [exact Htok | exact Hes].
Defined.

(** ** Each attempt at most once *)

Lemma filter_snoc_length {A} (P : A -> bool) l x :
  length (List.filter P (l ++ [x])) = length (List.filter P l) + (if P x then 1 else 0).
Proof.
  rewrite List.filter_app, length_app. simpl. by destruct (P x).
Qed.

Lemma filter_filter_length_le {A} (P Q : A -> bool) l :
  length (List.filter P (List.filter Q l)) <= length (List.filter P l).
Proof.
  induction l as [|x l IH]; simpl; [done|].
  destruct (Q x), (P x) eqn:HP; simpl; rewrite ?HP; simpl; lia.
Qed.

Lemma filter_remove_length_lt (P : nat -> bool) id l :
  In id l -> P id = true ->
  length (List.filter P (List.filter (fun i => negb (Nat.eqb id i)) l))
  < length (List.filter P l).
Proof.
  induction l as [|x l IH]; simpl; intros Hin HP; [done|].
  destruct (Nat.eqb id x) eqn:E; simpl.
  - apply Nat.eqb_eq in E. subst x. rewrite HP. simpl.
    pose proof (filter_filter_length_le P (fun i => negb (Nat.eqb id i)) l). lia.
  - destruct Hin as [->|Hin]; [by rewrite Nat.eqb_refl in E|].
    specialize (IH Hin HP). destruct (P x); simpl; lia.
Qed.

Lemma sent_snoc rid n w e x :
  net x = net w ++ [e] ->
  sent rid n x = sent rid n w + (if is_attempt rid n e then 1 else 0).
Proof. intros Hn. unfold sent. rewrite Hn. apply filter_snoc_length. Qed.

Lemma first_pending_snoc rid w e x :
  Forall (fun id => id < length (net w)) (inflight w) ->
  net x = net w ++ [e] -> inflight x = inflight w ++ [length (net w)] ->
  first_pending rid x = first_pending rid w + (if is_attempt rid 0 e then 1 else 0).
Proof.
  intros Hlt Hn Hi. unfold first_pending. rewrite Hn, Hi.
  rewrite filter_snoc_length, lookup_snoc_length. f_equal. f_equal.
  apply filter_ext_in_bool. intros id Hin.
  rewrite lookup_app_l; [done|].
  rewrite Forall_forall in Hlt. apply Hlt. by apply list_elem_of_In.
Qed.

Lemma once_same w w' :
  refreshPromise w' = refreshPromise w -> heap w' = heap w ->
  net w' = net w -> inflight w' = inflight w -> calls w' = calls w ->
  once w -> once w'.
Proof.
  intros Hp Hh Hn Hi Hc [H1 H2 H3].
  constructor; unfold retry_slot, sent, first_pending, waiting in *;
    rewrite ?Hp, ?Hn, ?Hi, ?Hc; done.
Qed.

Lemma once_set_heap w h : once w -> once (set_heap h w).
Proof. intros [H1 H2 H3]. by constructor. Qed.

Lemma once_heap_snoc w o : wf w -> once w -> once (set_heap (heap w ++ [o]) w).
Proof. intros _. apply once_set_heap. Qed.

Lemma once_store r o w : once w -> once (store r o w).
Proof. apply once_set_heap. Qed.

Lemma once_add_call w c : wf w -> once w -> once (set_calls (calls w ++ [c]) w).
Proof.
  intros Hwf [H1 H2 H3]. constructor; [|done|done]. simpl.
  pose proof (wf_net_rid w Hwf) as Hrid.
  rewrite Forall_forall in H1, Hrid. apply Forall_forall.
  intros [fc [rid n|]] Hin; simpl; [|done].
  destruct (H1 _ Hin) as [Hn (c' & Hc' & Hurl)]. specialize (Hrid _ Hin). simpl in *.
  split; [done|]. exists c'. split; [|done].
  by rewrite lookup_app_l by done.
Qed.

Lemma once_remove w id :
  once w -> once (set_inflight (List.filter (fun i => negb (Nat.eqb id i)) (inflight w)) w).
Proof.
  intros [H1 H2 H3]. constructor; [done|done|].
  intros rid. specialize (H3 rid). unfold retry_slot, first_pending in *. simpl.
  pose proof (filter_filter_length_le
                (fun id => match net w !! id with
                           | Some e => is_attempt rid 0 e
                           | None => false
                           end)
                (fun i => negb (Nat.eqb id i)) (inflight w)).
  unfold sent, waiting in *. simpl. lia.
Qed.

Lemma retry_slot_after_first w id fc rid :
  once w -> In id (inflight w) -> net w !! id = Some (fc, KFetch rid 0) ->
  retry_slot rid
    (set_inflight (List.filter (fun i => negb (Nat.eqb id i)) (inflight w)) w) = 0.
Proof.
  intros [_ _ H3] Hin Hid. specialize (H3 rid).
  set (P := fun id => match net w !! id with
                      | Some e => is_attempt rid 0 e
                      | None => false
                      end).
  assert (P id = true) as HP.
  { unfold P. rewrite Hid. unfold is_attempt. simpl. by rewrite Nat.eqb_refl. }
  pose proof (filter_remove_length_lt P id (inflight w) Hin HP) as Hlt.
  unfold retry_slot, first_pending, sent, waiting in *. simpl.
  fold P in H3 |- *. lia.
Qed.

Lemma once_promise_cleared w : once w -> once (set_refreshPromise None w).
Proof.
  intros [H1 H2 H3]. constructor; [done|done|].
  intros rid. specialize (H3 rid). unfold retry_slot, waiting in *. simpl.
  unfold sent, first_pending in *. simpl. lia.
Qed.

Lemma once_await rid w : once w -> retry_slot rid w = 0 -> once (await_refresh rid w).
Proof.
  intros [H1 H2 H3] Hfree. unfold await_refresh.
  destruct (refreshPromise w) as [p|] eqn:Hp; [|done].
  constructor; [done|done|].
  intros rid'. specialize (H3 rid').
  unfold retry_slot, waiting, sent, first_pending in *. simpl. rewrite Hp in *.
  rewrite filter_snoc_length.
  destruct (Nat.eqb rid' rid) eqn:E; [|lia].
  apply Nat.eqb_eq in E. subst rid'. lia.
Qed.

Lemma is_attempt_KFetch rid' n' fc rid n :
  is_attempt rid' n' (fc, KFetch rid n) = Nat.eqb rid rid' && Nat.eqb n n'.
Proof. reflexivity. Qed.

Lemma once_fetch_attempt w fc rid n :
  wf w -> once w -> n <= 1 ->
  (exists c, calls w !! rid = Some c /\ f_url fc = c_url c) ->
  sent rid n w = 0 -> retry_slot rid w = 0 ->
  let w' := set_inflight (inflight w ++ [length (net w)])
              (set_net (net w ++ [(fc, KFetch rid n)]) w) in
  once w'
  /\ (forall rid' n', rid' <> rid -> sent rid' n' w' = sent rid' n' w)
  /\ (forall rid', rid' <> rid -> retry_slot rid' w' = retry_slot rid' w).
Proof.
  intros Hwf [H1 H2 H3] Hn Hshape Hsent Hfree w'.
  assert (forall rid' n', sent rid' n' w'
            = sent rid' n' w + (if Nat.eqb rid rid' && Nat.eqb n n' then 1 else 0))
    as Hs by (intros; by rewrite (sent_snoc _ _ w (fc, KFetch rid n) w' eq_refl)).
  assert (forall rid', first_pending rid' w'
            = first_pending rid' w + (if Nat.eqb rid rid' && Nat.eqb n 0 then 1 else 0))
    as Hf.
  { intros.
    by rewrite (first_pending_snoc rid' w (fc, KFetch rid n) w'
                  (wf_inflight_lt w Hwf) eq_refl eq_refl). }
  assert (forall rid', waiting rid' w' = waiting rid' w) as Hw by done.
  split; [|split].
  - constructor.
    + simpl. apply Forall_app. split; [done|]. constructor; [|done]. simpl. done.
    + intros rid'. rewrite Hs. specialize (H2 rid').
      destruct (Nat.eqb rid rid') eqn:E; simpl; [|lia].
      apply Nat.eqb_eq in E. subst rid'.
      destruct n as [|n]; simpl; lia.
    + intros rid'. unfold retry_slot. rewrite Hs, Hf, Hw.
      specialize (H3 rid'). unfold retry_slot in *.
      destruct (Nat.eqb rid rid') eqn:E; simpl; [|lia].
      apply Nat.eqb_eq in E. subst rid'.
      destruct n as [|[|n]]; simpl; lia.
  - intros rid' n' Hne. rewrite Hs.
    apply Nat.eqb_neq in Hne. rewrite Nat.eqb_sym in Hne. rewrite Hne. simpl. lia.
  - intros rid' Hne. unfold retry_slot. rewrite Hs, Hf, Hw.
    apply Nat.eqb_neq in Hne. rewrite Nat.eqb_sym in Hne. rewrite Hne. simpl. lia.
Qed.

Lemma once_fetch_refresh w fc :
  wf w -> once w -> refreshPromise w = None ->
  let w' := set_refreshPromise (Some {| pid := length (net w); waiters := [] |})
              (set_inflight (inflight w ++ [length (net w)])
                 (set_net (net w ++ [(fc, KRefresh)]) w)) in
  once w' /\ (forall rid, retry_slot rid w' = retry_slot rid w).
Proof.
  intros Hwf [H1 H2 H3] Hp w'.
  assert (forall rid' n', sent rid' n' w' = sent rid' n' w) as Hs.
  { intros. rewrite (sent_snoc rid' n' w (fc, KRefresh) w' eq_refl).
    change (is_attempt rid' n' (fc, KRefresh)) with false. cbv iota. lia. }
  assert (forall rid', first_pending rid' w' = first_pending rid' w) as Hf.
  { intros.
    rewrite (first_pending_snoc rid' w (fc, KRefresh) w'
               (wf_inflight_lt w Hwf) eq_refl eq_refl).
    change (is_attempt rid' 0 (fc, KRefresh)) with false. cbv iota. lia. }
  assert (forall rid', waiting rid' w' = waiting rid' w) as Hw.
  { intros. unfold waiting. simpl. by rewrite Hp. }
  assert (forall rid, retry_slot rid w' = retry_slot rid w) as Hr.
  { intros. unfold retry_slot. by rewrite Hs, Hf, Hw. }
  split; [|done]. constructor.
  - simpl. apply Forall_app. split; [done|]. by constructor.
  - intros rid. rewrite Hs. apply H2.
  - intros rid. rewrite Hr. apply H3.
Qed.

Lemma once_makeRequest rid n w :
  wf w -> once w -> rid < length (calls w) -> n <= 1 ->
  sent rid n w = 0 -> retry_slot rid w = 0 ->
  once (makeRequest rid n w)
  /\ (forall rid' n', rid' <> rid ->
        sent rid' n' (makeRequest rid n w) = sent rid' n' w)
  /\ (forall rid', rid' <> rid ->
        retry_slot rid' (makeRequest rid n w) = retry_slot rid' w).
Proof.
  intros Hwf Honce Hrid Hn Hsent Hfree.
  destruct (lookup_lt_is_Some_2 (calls w) rid Hrid) as [c Hc].
  rewrite (makeRequest_eq rid n w c Hc). simpl.
  set (cfg := config_for (token w) (deref (c_options c) w)).
  set (w1 := set_heap (heap w ++ [cfg]) w).
  assert (wf w1) as Hwf1.
  { apply wf_heap_grow; [|done]. rewrite length_app. lia. }
  assert (once w1) as Honce1 by by apply once_heap_snoc.
  apply (once_fetch_attempt w1 {| f_url := c_url c; f_config := cfg |} rid n);
    try done.
  by exists c.
Qed.

Lemma once_refreshAccessToken w :
  wf w -> once w ->
  once (snd (refreshAccessToken w))
  /\ forall rid, retry_slot rid (snd (refreshAccessToken w)) = retry_slot rid w.
Proof.
  intros Hwf Honce. unfold refreshAccessToken.
  destruct (truthy (refreshToken w)); cbn [negb]; [|done].
  destruct (refreshPromise w) as [p|] eqn:Hp; cbn [snd]; [done|].
  exact (once_fetch_refresh w (refresh_call w) Hwf Honce Hp).
Qed.

Lemma once_tokens_only w w' :
  refreshPromise w' = refreshPromise w -> heap w' = heap w -> net w' = net w ->
  inflight w' = inflight w -> calls w' = calls w -> once w -> once w'.
Proof. apply once_same. Qed.

Lemma once_makeRequest_response rid n r w :
  wf w -> once w -> (n = 0 -> retry_slot rid w = 0) ->
  once (makeRequest_response rid n r w).
Proof.
  intros Hwf Honce Hfree. unfold makeRequest_response.
  destruct r as [reason|status body]; [by apply (once_tokens_only w)|].
  destruct ((status =? 401)%Z && Nat.eqb n 0 && truthy (refreshToken w)) eqn:Hg.
  - apply andb_true_iff in Hg as [Hg _]. apply andb_true_iff in Hg as [_ Hn].
    apply Nat.eqb_eq in Hn.
    destruct (once_refreshAccessToken w Hwf Honce) as [Honce' Hslot].
    destruct (refreshAccessToken w) as [[e|p] w']; simpl in *.
    + by apply (once_tokens_only w').
    + apply once_await; [done|]. rewrite Hslot. by apply Hfree.
  - destruct (negb (ok status)).
    + destruct (GetV _ "detail"); by apply (once_tokens_only w).
    + destruct body; by apply (once_tokens_only w).
Qed.

Lemma once_resume_all out ws : forall w,
  wf w -> once w -> NoDup ws ->
  Forall (fun rid => rid < length (calls w) /\ sent rid 1 w = 0 /\ retry_slot rid w = 0) ws ->
  once (fold_left (resume out) ws w).
Proof.
  induction ws as [|rid ws IH]; intros w Hwf Honce Hnd Hws; simpl; [done|].
  apply NoDup_cons in Hnd as [Hnotin Hnd].
  apply Forall_cons in Hws as [(Hrid & Hsent & Hfree) Hws].
  destruct out as [v|e]; simpl.
  - destruct (wf_makeRequest rid 1 w Hrid Hwf) as [Hwf' Hcalls].
    destruct (once_makeRequest rid 1 w Hwf Honce Hrid (le_n 1) Hsent Hfree)
      as (Honce' & Hsent' & Hslot').
    apply IH; try done.
    rewrite Forall_forall in Hws. apply Forall_forall. intros rid' Hin.
    destruct (Hws rid' Hin) as (H1 & H2 & H3).
    assert (rid' <> rid) as Hne by (intros ->; done).
    rewrite Hcalls, Hsent', Hslot' by done. done.
  - apply IH; try done.
    + by apply wf_refresh_failed.
    + by apply (once_tokens_only w).
Qed.

Lemma count_le_1_NoDup (l : list nat) :
  (forall x, length (List.filter (Nat.eqb x) l) <= 1) -> NoDup l.
Proof.
  induction l as [|y l IH]; intros Hcount; [apply NoDup_nil_2|].
  apply NoDup_cons. split.
  - intros Hin. specialize (Hcount y). simpl in Hcount.
    rewrite Nat.eqb_refl in Hcount. simpl in Hcount.
    assert (In y (List.filter (Nat.eqb y) l)) as Hin'.
    { apply List.filter_In. split; [by apply list_elem_of_In | apply Nat.eqb_refl]. }
    destruct (List.filter (Nat.eqb y) l); [done | simpl in Hcount; lia].
  - apply IH. intros x. specialize (Hcount x). simpl in Hcount.
    destruct (Nat.eqb x y); simpl in Hcount; lia.
Qed.

Lemma count_pos_In (l : list nat) x :
  In x l -> 1 <= length (List.filter (Nat.eqb x) l).
Proof.
  intros Hin.
  assert (In x (List.filter (Nat.eqb x) l)) as Hin'.
  { apply List.filter_In. split; [done | apply Nat.eqb_refl]. }
  destruct (List.filter (Nat.eqb x) l); [done | simpl; lia].
Qed.

Lemma filter_none {A} (P : A -> bool) l :
  (forall x, In x l -> P x = false) -> List.filter P l = [].
Proof.
  induction l as [|x l IH]; intros H; simpl; [done|].
  rewrite (H x) by by left. apply IH. intros y Hy. apply H. by right.
Qed.

(** A request id that is not registered yet has nothing sent or waiting. *)
Lemma fresh_rid_counts w n :
  wf w -> sent (length (calls w)) n w = 0 /\ retry_slot (length (calls w)) w = 0.
Proof.
  intros Hwf.
  pose proof (wf_net_rid w Hwf) as Hrid. rewrite Forall_forall in Hrid.
  assert (forall n e, In e (net w) -> is_attempt (length (calls w)) n e = false) as Hno.
  { intros n' [fc [rid' m|]] Hin; [|done].
    apply list_elem_of_In in Hin. specialize (Hrid _ Hin). simpl in Hrid.
    unfold is_attempt. simpl.
    assert (Nat.eqb rid' (length (calls w)) = false) as -> by (apply Nat.eqb_neq; lia).
    done. }
  assert (forall n, sent (length (calls w)) n w = 0) as Hsent.
  { intros n'. unfold sent. rewrite filter_none; [done|]. intros e. apply Hno. }
  split; [apply Hsent|].
  unfold retry_slot. rewrite Hsent. unfold first_pending, waiting.
  rewrite filter_none.
  - destruct (refreshPromise w) as [p|] eqn:Hp; [|done].
    rewrite filter_none; [done|]. intros rid' Hin.
    pose proof (wf_waiters w Hwf p Hp) as Hw. rewrite Forall_forall in Hw.
    apply list_elem_of_In in Hin. specialize (Hw _ Hin).
    apply Nat.eqb_neq. lia.
  - intros id _. destruct (net w !! id) as [e|] eqn:Hid; [|done].
    apply Hno. apply list_elem_of_In. by apply list_elem_of_lookup_2 in Hid.
Qed.

Lemma once_request endpoint options w :
  match options with Some r => r < length (heap w) | None => True end ->
  wf w -> once w -> once (snd (request endpoint options w)).
Proof.
  intros Hopt Hwf Honce. unfold request.
  assert (forall w1 c, wf w1 -> once w1 -> c_options c < length (heap w1) ->
            once (makeRequest (length (calls w1)) 0 (set_calls (calls w1 ++ [c]) w1)))
    as Hgo.
  { intros w1 c Hwf1 Honce1 Hc.
    destruct (fresh_rid_counts w1 0 Hwf1) as [Hsent Hslot].
    apply once_makeRequest; try done.
    - by apply wf_add_call.
    - by apply once_add_call.
    - simpl. rewrite length_app. simpl. lia.
    - lia. }
  destruct options as [r|]; simpl.
  - by apply Hgo.
  - apply (Hgo (set_heap (heap w ++ [[]]) w)).
    + apply wf_heap_grow; [|done]. rewrite length_app. lia.
    + by apply once_heap_snoc.
    + simpl. rewrite length_app. simpl. lia.
Qed.

Lemma once_settle id r w : wf w -> once w -> once (settle id r w).
Proof.
  intros Hwf Honce. unfold settle.
  destruct (existsb (Nat.eqb id) (inflight w)) eqn:Hex; [|done].
  apply existsb_exists in Hex as (i & Hin & Hi). apply Nat.eqb_eq in Hi. subst i.
  simpl. destruct (net w !! id) as [[fc [rid n|]]|] eqn:Hid.
  - apply once_makeRequest_response.
    + by eapply wf_remove_fetch.
    + by apply once_remove.
    + intros ->. by eapply retry_slot_after_first.
  - destruct (wf_remove_refresh w id fc Hin Hid Hwf) as [Hwf' (p & Hp & _)].
    unfold refresh_settled. simpl. rewrite Hp.
    set (w1 := set_inflight _ w) in *.
    assert (once (set_refreshPromise None w1)) as Honce'
      by by apply once_promise_cleared, once_remove.
    destruct (refresh_chain_frame r w1) as (Hp2 & Hh2 & Hn2 & Hi2 & Hc2 & _).
    destruct (refresh_chain r w1) as [out w2]. simpl in *.
    assert (forall rid n, sent rid n w2 = sent rid n w) as Hsent2.
    { intros. unfold sent. by rewrite Hn2. }
    assert (forall rid, first_pending rid w2 <= first_pending rid w) as Hfp2.
    { intros. unfold first_pending. rewrite Hn2, Hi2. subst w1. simpl.
      apply filter_filter_length_le. }
    assert (forall rid, waiting rid w2 = 0) as Hw2.
    { intros. unfold waiting. by rewrite Hp2. }
    apply once_resume_all.
    + eapply wf_tokens_only; [| | | | |exact Hwf']; simpl; done.
    + eapply once_tokens_only; [| | | | |exact Honce']; simpl; done.
    + apply count_le_1_NoDup. intros rid.
      pose proof (once_retry w Honce rid) as Hle.
      unfold retry_slot, waiting in Hle. rewrite Hp in Hle.
      etransitivity; [|exact Hle].
      rewrite Nat.add_comm. apply Nat.le_add_r.
    + apply Forall_forall. intros rid Hin'. apply list_elem_of_In in Hin'.
      pose proof (wf_waiters w Hwf p Hp) as Hw. rewrite Forall_forall in Hw.
      pose proof (once_retry w Honce rid) as Hle.
      unfold retry_slot in Hle.
      assert (1 <= waiting rid w) as Hpos.
      { unfold waiting. rewrite Hp. by apply count_pos_In. }
      rewrite Hc2. simpl. split; [apply Hw; by apply list_elem_of_In|].
      unfold retry_slot. rewrite Hsent2, Hw2. specialize (Hfp2 rid). lia.
  - destruct Hwf as [H1 _ _ _ _ _]. rewrite Forall_forall in H1.
    apply lookup_ge_None in Hid. apply list_elem_of_In in Hin.
    specialize (H1 _ Hin). lia.
Qed.

Lemma once_act w a : wf w -> once w -> once (act w a).
Proof.
  intros Hwf Honce. destruct a as [o|endpoint [r|]|id r|a r| |]; unfold act.
  - by apply once_heap_snoc.
  - destruct (r <? length (heap w)) eqn:Hr; [|done].
    apply once_request; [|done|done]. by apply Nat.ltb_lt.
  - by apply once_request.
  - by apply once_settle.
  - destruct (setToken_frame a r w) as (Hp & _ & Hh & Hn & Hi & Hc & _).
    by apply (once_tokens_only w).
  - by apply (once_tokens_only w).
  - by apply once_refreshAccessToken.
Qed.

Lemma once_run acts : forall w, wf w -> once w -> once (run acts w).
Proof.
  induction acts as [|a acts IH]; intros w Hwf Honce; simpl; [done|].
  apply IH; [by apply wf_act | by apply once_act].
Qed.

Lemma once_constructor ls objs : once (constructor ls objs).
Proof.
  constructor.
  - by constructor.
  - intros rid. unfold sent. simpl. lia.
  - intros rid. unfold retry_slot, sent, first_pending, waiting. simpl. lia.
Qed.

Lemma once_happen w e : wf w -> once w -> once (happen w e).
Proof.
  destruct e as [a|r o]; [apply once_act | intros _; apply once_store].
Qed.

Lemma once_play es : forall w, wf w -> once w -> once (play es w).
Proof.
  induction es as [|e es IH]; intros w Hwf Honce; simpl; [done|].
  apply IH; [by apply wf_happen | by apply once_happen].
Qed.

Lemma reachable_once w : reachable w -> once w.
Proof.
  intros (ls & objs & es & ->).
  apply once_play; [apply wf_constructor | apply once_constructor].
Qed.

(** ** The retried request *)

Lemma same_but_authorization_refl h : same_but_authorization h h.
Proof. by destruct h. Qed.

Lemma same_but_authorization_auth tok tok' :
  same_but_authorization (JObj (auth_headers tok)) (JObj (auth_headers tok')).
Proof. unfold auth_headers. simpl. by destruct (truthy tok), (truthy tok'). Qed.

(** The spread keeps [headers] in first place; its value is the one given,
    unless the options bring their own. *)
Lemma obj_spread_headers o : forall V1 V2 rest,
  exists V1' V2' rest',
    obj_spread (("headers", V1) :: rest) o = ("headers", V1') :: rest'
    /\ obj_spread (("headers", V2) :: rest) o = ("headers", V2') :: rest'
    /\ ((V1' = V1 /\ V2' = V2 /\ obj_has "headers" o = false) \/ V1' = V2').
Proof.
  unfold obj_spread.
  induction o as [|[k v] o IH]; intros V1 V2 rest;
    cbn [fold_left obj_set obj_has fst snd].
  - exists V1, V2, rest. split; [done|]. split; [done|]. by left.
  - destruct (String.eqb "headers" k) eqn:E.
    + destruct (IH v v rest) as (V1' & V2' & rest' & H1 & H2 & H3).
      exists V1', V2', rest'. split; [done|]. split; [done|]. right.
      rewrite H1 in H2. by injection H2.
    + destruct (IH V1 V2 (obj_set k v rest)) as (V1' & V2' & rest' & H1 & H2 & H3).
      exists V1', V2', rest'. split; [done|]. split; [done|].
      destruct H3 as [(-> & -> & Hno)|]; [left | by right].
      rewrite (String.eqb_sym k "headers"), E. done.
Qed.

(** The configurations built from one [options] object with two tokens
    are the same but for the [Authorization] header. *)
Lemma config_for_two_tokens tok tok' o :
  obj_delete "headers" (config_for tok o) = obj_delete "headers" (config_for tok' o)
  /\ same_but_authorization (obj_get "headers" (config_for tok o))
                            (obj_get "headers" (config_for tok' o))
  /\ forall k, k <> "headers" ->
               obj_get k (config_for tok o) = obj_get k (config_for tok' o).
Proof.
  unfold config_for.
  destruct (obj_spread_headers o (JObj (auth_headers tok)) (JObj (auth_headers tok')) [])
    as (V1 & V2 & rest & -> & -> & H3).
  cbn -[String.eqb].
  change (String.eqb "headers" "params") with false.
  change (String.eqb "headers" "headers") with true.
  cbn -[String.eqb]. split; [done|]. split.
  - destruct H3 as [(-> & -> & _)| ->].
    + apply same_but_authorization_auth.
    + apply same_but_authorization_refl.
  - intros k Hk. apply String.eqb_neq in Hk. rewrite String.eqb_sym in Hk.
    by rewrite Hk.
Qed.

Lemma issued_for_split rid l :
  Forall (fun e : FetchCall * Kont =>
            match snd e with KFetch _ n => n <= 1 | KRefresh => True end) l ->
  length (List.filter (issued_for rid) l)
  = length (List.filter (is_attempt rid 0) l)
    + length (List.filter (is_attempt rid 1) l).
Proof.
  induction 1 as [|[fc [rid' n|]] l Hn _ IH]; [done| |].
  - cbn [List.filter].
    change (issued_for rid (fc, KFetch rid' n)) with (Nat.eqb rid' rid).
    change (is_attempt rid 0 (fc, KFetch rid' n)) with (Nat.eqb rid' rid && Nat.eqb n 0).
    change (is_attempt rid 1 (fc, KFetch rid' n)) with (Nat.eqb rid' rid && Nat.eqb n 1).
    destruct (Nat.eqb rid' rid); cbn [andb]; [|exact IH].
    cbn [snd] in Hn.
    destruct n as [|[|n]]; cbn [Nat.eqb length]; lia.
  - cbn [List.filter].
    change (issued_for rid (fc, KRefresh)) with false.
    change (is_attempt rid 0 (fc, KRefresh)) with false.
    change (is_attempt rid 1 (fc, KRefresh)) with false.
    exact IH.
Qed.

Lemma retry_response_is_final rid r w :
  net (makeRequest_response rid 1 r w) = net w
  /\ refreshPromise (makeRequest_response rid 1 r w) = refreshPromise w
  /\ exists out, results (makeRequest_response rid 1 r w) = results w ++ [(rid, out)].
Proof.
  unfold makeRequest_response.
  destruct r as [reason|status body];
    [split; [done|split; [done|by eexists]]|].
  rewrite andb_false_r. cbv iota.
  destruct (negb (ok status)).
  - destruct (GetV _ "detail"); split; [done|split; [done|by eexists]|done|split; [done|by eexists]].
  - destruct body; split; [done|split; [done|by eexists]|done|split; [done|by eexists]].
Qed.

Lemma deref_store r o w : r < length (heap w) -> deref r (store r o w) = o.
Proof.
  intros Hr. unfold deref, store. cbn [heap set_heap].
  by rewrite list_lookup_insert_eq.
Qed.

(** The retry of a request that awaits a refresh is built from the fields
    that its options object has when the refresh is answered. *)
Lemma retry_from_current_options w p rid c status data a rt o' :
  wf w -> refreshPromise w = Some p -> In rid (waiters p) ->
  calls w !! rid = Some c -> ok status = true ->
  GetV data "access_token" = Some a -> GetV data "refresh_token" = Some rt ->
  In ({| f_url := c_url c; f_config := config_for a o' |}, KFetch rid 1)
     (net (settle (pid p) (Response status (Some data)) (store (c_options c) o' w))).
Proof.
  intros Hwf Hp Hin Hc Hok Ha Hr.
  assert (c_options c < length (heap w)) as Hlt.
  { pose proof (wf_options w Hwf) as Hopt. rewrite Forall_forall in Hopt.
    apply Hopt. by apply list_elem_of_lookup_2 in Hc. }
  destruct (settle_refresh_success (store (c_options c) o' w) p status data a rt
              (wf_store _ _ _ Hwf) Hp Hok Ha Hr) as (_ & _ & _ & _ & _ & es & Hnet & Hes).
  cbn zeta in Hnet. rewrite Hnet.
  destruct (Forall2_In_l _ _ _ rid Hes Hin) as (e & He & Hatt).
  apply in_or_app. right.
  unfold attempt in Hatt. change (calls (store (c_options c) o' w)) with (calls w) in Hatt.
  rewrite Hc, (deref_store _ _ _ Hlt) in Hatt. by injection Hatt as <-.
Qed.

(** C6: what holds on every page the service can be in: the fetches sent
    for one logical request are at most two, the first attempt and one
    retry, both to the same URL, and the response to the retry settles the
    request without any further fetch or refresh; two configurations built
    from the same fields are the same (method, body and every other field,
    in the same order) but for the [Authorization] entry of the headers.
    What does not hold: that the retry is the first attempt again.
    [makeRequest(1)] spreads the options object as it is when the refresh is
    answered, so whatever fields [o'] the application has given that object
    in the meantime are the ones sent. *)
Theorem retry_rereads_options (w : World) (rid : nat) (Hreach : reachable w) :
  (length (List.filter (issued_for rid) (net w)) <= 2
   /\ sent rid 1 w <= 1
   /\ (forall fc n, In (fc, KFetch rid n) (net w) -> n <= 1)
   /\ (forall fc fc' n n',
         In (fc, KFetch rid n) (net w) -> In (fc', KFetch rid n') (net w) ->
         f_url fc' = f_url fc)
   /\ (forall r,
         net (makeRequest_response rid 1 r w) = net w
         /\ refreshPromise (makeRequest_response rid 1 r w) = refreshPromise w
         /\ exists out,
             results (makeRequest_response rid 1 r w) = results w ++ [(rid, out)]))
  /\ (forall tok tok' o,
        obj_delete "headers" (config_for tok' o) = obj_delete "headers" (config_for tok o)
        /\ same_but_authorization (obj_get "headers" (config_for tok o))
                                  (obj_get "headers" (config_for tok' o)))
  /\ (forall p c status data a rt o',
        refreshPromise w = Some p -> In rid (waiters p) -> calls w !! rid = Some c ->
        ok status = true ->
        GetV data "access_token" = Some a -> GetV data "refresh_token" = Some rt ->
        In ({| f_url := c_url c; f_config := config_for a o' |}, KFetch rid 1)
           (net (settle (pid p) (Response status (Some data))
                   (store (c_options c) o' w)))).
Proof.
  pose proof (reachable_wf w Hreach) as Hwf.
  pose proof (reachable_once w Hreach) as Honce.
  pose proof (once_shape w Honce) as Hshape.
  assert (sent rid 1 w <= 1) as Hretry.
  { pose proof (once_retry w Honce rid) as Hle. unfold retry_slot in Hle. lia. }
  split; [split; [|split; [done|split; [|split]]]|split].
  - rewrite issued_for_split.
    + pose proof (once_first w Honce rid) as Hfirst. unfold sent in *. lia.
    + eapply Forall_impl; [exact Hshape|]. simpl.
      intros [fc [rid' n|]]; simpl; [by intros [Hn _] | done].
  - intros fc n Hin. rewrite Forall_forall in Hshape.
    apply list_elem_of_In in Hin. by destruct (Hshape _ Hin) as [Hn _].
  - intros fc fc' n n' Hin Hin'. rewrite Forall_forall in Hshape.
    apply list_elem_of_In in Hin, Hin'.
    destruct (Hshape _ Hin) as [_ (c & Hc & Hurl)].
    destruct (Hshape _ Hin') as [_ (c' & Hc' & Hurl')].
    cbn [fst snd] in *. rewrite Hc in Hc'. injection Hc' as <-. congruence.
  - intros r. apply retry_response_is_final.
  - intros tok tok' o.
    destruct (config_for_two_tokens tok tok' o) as (H1 & H2 & _). by split.
  - intros p c status data a rt o' Hp Hin Hc Hok Ha Hr.
    by apply (retry_from_current_options w p rid c status data a rt o').
Qed.

(** The request of [posting_waits] was sent as a POST with a body.  The
    application then makes its options object those of a DELETE; when the
    refresh succeeds the retry goes out as a DELETE without body. *)
Lemma retry_rereads_options_witness :
  let o' := [("method", JStr "DELETE")] in
  let w' := settle 1 (Response 200 (Some fresh_pair)) (store 0 o' posting_waits) in
  reachable posting_waits
  /\ net posting_waits !! 0
     = Some ({| f_url := "http://localhost:8000/api/problems";
                f_config :=
                  [("headers", JObj [("Content-Type", JStr "application/json");
                                     ("Authorization", JStr "Bearer a0")]);
                   ("method", JStr "POST"); ("body", JStr "[1,2]")] |}, KFetch 0 0)
  /\ In ({| f_url := "http://localhost:8000/api/problems";
            f_config :=
              [("headers", JObj [("Content-Type", JStr "application/json");
                                 ("Authorization", JStr "Bearer a1")]);
               ("method", JStr "DELETE")] |}, KFetch 0 1) (net w').
Proof.
  intros o' w'.
  assert (reachable posting_waits) as Hreach.
  { unfold posting_waits. apply reachable_play. apply reachable_constructor. }
  assert (refreshPromise posting_waits = Some {| pid := 1; waiters := [0] |}) as Hp
    by (vm_compute; reflexivity).
  assert (calls posting_waits !! 0
          = Some {| c_url := "http://localhost:8000/api/problems"; c_options := 0 |})
    as Hc by (vm_compute; reflexivity).
  assert (In 0 [0]) as Hin by (left; reflexivity).
  split; [exact Hreach|]. split; [vm_compute; reflexivity|].
  exact (proj2 (proj2 (retry_rereads_options posting_waits 0 Hreach))
           {| pid := 1; waiters := [0] |} _ 200%Z fresh_pair (JStr "a1") (JStr "r1") o'
           Hp Hin Hc eq_refl eq_refl eq_refl).
Defined.

(** ** The caller's options object *)

Lemma makeRequest_heap_prefix rid n w : heap w `prefix_of` heap (makeRequest rid n w).
Proof.
  destruct (calls w !! rid) as [c|] eqn:Hc.
  - rewrite (makeRequest_eq rid n w c Hc). simpl. by apply prefix_app_r.
  - by rewrite makeRequest_unknown.
Qed.

Lemma resume_all_heap_prefix out ws : forall w,
  heap w `prefix_of` heap (fold_left (resume out) ws w).
Proof.
  induction ws as [|rid ws IH]; intros w; simpl; [done|].
  etransitivity; [|apply IH].
  destruct out; simpl; [apply makeRequest_heap_prefix | done].
Qed.

Lemma refreshAccessToken_heap w : heap (snd (refreshAccessToken w)) = heap w.
Proof.
  unfold refreshAccessToken.
  destruct (truthy (refreshToken w)); simpl; [|done].
  by destruct (refreshPromise w).
Qed.

Lemma makeRequest_response_heap rid n r w :
  heap (makeRequest_response rid n r w) = heap w.
Proof.
  unfold makeRequest_response.
  destruct r as [reason|status body]; [done|].
  destruct ((status =? 401)%Z && Nat.eqb n 0 && truthy (refreshToken w)).
  - pose proof (refreshAccessToken_heap w) as Hh.
    destruct (refreshAccessToken w) as [[e|p] w']; simpl in *; [done|].
    unfold await_refresh. by destruct (refreshPromise w').
  - destruct (negb (ok status)).
    + by destruct (GetV _ "detail").
    + by destruct body.
Qed.

Lemma settle_heap_prefix id r w : heap w `prefix_of` heap (settle id r w).
Proof.
  unfold settle. destruct (existsb (Nat.eqb id) (inflight w)); [|done].
  simpl. destruct (net w !! id) as [[fc [rid n|]]|]; [| |done].
  - by rewrite makeRequest_response_heap.
  - unfold refresh_settled.
    set (w1 := set_inflight _ w).
    destruct (refresh_chain_frame r w1) as (_ & Hh & _).
    destruct (refresh_chain r w1) as [out w2]. simpl in *.
    etransitivity; [|apply resume_all_heap_prefix]. by rewrite Hh.
Qed.

Lemma request_heap_prefix endpoint options w :
  heap w `prefix_of` heap (snd (request endpoint options w)).
Proof.
  unfold request. destruct options as [r|]; simpl.
  - etransitivity; [|apply makeRequest_heap_prefix]. done.
  - etransitivity; [|apply makeRequest_heap_prefix]. simpl. by apply prefix_app_r.
Qed.

Lemma act_heap_prefix w a : heap w `prefix_of` heap (act w a).
Proof.
  destruct a as [o|endpoint [r|]|id r|a r| |]; unfold act.
  - simpl. by apply prefix_app_r.
  - destruct (r <? length (heap w)); [apply request_heap_prefix | done].
  - apply request_heap_prefix.
  - apply settle_heap_prefix.
  - by destruct (setToken_frame a r w) as (_ & _ & -> & _).
  - done.
  - by rewrite refreshAccessToken_heap.
Qed.

Lemma run_heap_prefix acts : forall w, heap w `prefix_of` heap (run acts w).
Proof.
  induction acts as [|a acts IH]; intros w; simpl; [done|].
  etransitivity; [apply act_heap_prefix | apply IH].
Qed.

Lemma config_for_no_params tok o : obj_has "params" (config_for tok o) = false.
Proof. apply obj_has_delete_eq. Qed.

(** C9: a call of [request] with an options object builds its URL from
    the [params] of that object and sends a configuration without
    [params]; the object itself, [params] included, is the same after the
    call and after every later step of the service: only the application
    changes it. *)
Theorem request_leaves_options (w : World) (endpoint : string) (r : nat) (o : jsobj)
    (Hobj : heap w !! r = Some o) :
  net (snd (request endpoint (Some r) w))
  = net w ++ [({| f_url := request_url endpoint o;
                  f_config := config_for (token w) o |},
               KFetch (fst (request endpoint (Some r) w)) 0)]
  /\ obj_has "params" (config_for (token w) o) = false
  /\ heap (snd (request endpoint (Some r) w)) !! r = Some o
  /\ forall acts,
      heap (run acts (snd (request endpoint (Some r) w))) !! r = Some o
      /\ obj_get "params" (deref r (run acts (snd (request endpoint (Some r) w))))
         = obj_get "params" o.
Proof.
  assert (forall acts,
            heap (run acts (snd (request endpoint (Some r) w))) !! r = Some o) as Hkept.
  { intros acts. eapply prefix_lookup_Some; [exact Hobj|].
    etransitivity; [apply request_heap_prefix | apply run_heap_prefix]. }
  split; [|split; [apply config_for_no_params|split; [apply (Hkept [])|]]].
  - unfold request. simpl.
    rewrite (makeRequest_eq _ 0 _ {| c_url := request_url endpoint (deref r w);
                                     c_options := r |})
      by apply lookup_snoc_length.
    simpl. unfold deref. simpl. by rewrite Hobj.
  - intros acts. split; [apply Hkept|]. unfold deref. by rewrite Hkept.
Qed.

Lemma request_leaves_options_witness :
  let o := [("method", JStr "GET"); ("params", JObj [("tag", JStr "dp")])] in
  let w' := snd (request "/problems" (Some 0) signed_in) in
  heap signed_in !! 0 = Some o
  /\ List.map fst (net w')
     = [{| f_url := "http://localhost:8000/api/problems?tag=dp";
           f_config :=
             [("headers", JObj [("Content-Type", JStr "application/json");
                                ("Authorization", JStr "Bearer a0")]);
              ("method", JStr "GET")] |}]
  /\ heap (run [ASettle 0 (Response 401 None);
                ASettle 1 (Response 200 (Some fresh_pair));
                ASettle 2 (Response 200 (Some (JArr [])))] w') !! 0 = Some o.
Proof.
  intros o w'.
  destruct (request_leaves_options signed_in "/problems" 0 o eq_refl)
    as (Hnet & _ & _ & Hlater).
  split; [reflexivity|]. split.
  - fold w' in Hnet. rewrite Hnet. reflexivity.
  - exact (proj1 (Hlater _)).
Defined.

(** ** Storage and reload *)

(** X1: a pair of non-empty string tokens stored by [setToken] is what a
    new [ApiService] reads from [localStorage] on the next page load, and
    the two then agree with the fields of the service that stored them. *)
Theorem tokens_survive_reload (w : World) (a r : string) (objs : list jsobj)
    (Ha : a <> "") (Hr : r <> "") :
  let stored := setToken (JStr a) (JStr r) w in
  let reloaded := constructor (localStorage stored) objs in
  token reloaded = JStr a /\ refreshToken reloaded = JStr r
  /\ token reloaded = token stored /\ refreshToken reloaded = refreshToken stored
  /\ isAuthenticated reloaded = true.
Proof.
  intros stored reloaded.
  assert (truthy (JStr a) = true) as Hta by by apply truthy_JStr_nonempty.
  assert (truthy (JStr r) = true) as Htr by by apply truthy_JStr_nonempty.
  destruct (setToken_refresh_argument_aux w (JStr a) (JStr r) Hta Htr)
    as (Ht & Hrf & Hla & Hlr).
  fold stored in Ht, Hrf, Hla, Hlr.
  assert (token reloaded = JStr a) as Ht'.
  { unfold reloaded, constructor, getItem. cbn [token set_token set_refreshToken
      set_refreshPromise localStorage]. by rewrite Hla. }
  assert (refreshToken reloaded = JStr r) as Hr'.
  { unfold reloaded, constructor, getItem. cbn [refreshToken set_token set_refreshToken
      set_refreshPromise localStorage]. by rewrite Hlr. }
  split; [done|]. split; [done|]. split; [congruence|]. split; [congruence|].
  unfold isAuthenticated. by rewrite Ht'.
Qed.

Lemma tokens_survive_reload_witness :
  let stored := setToken (JStr "a1") (JStr "r1") signed_in in
  let reloaded := constructor (localStorage stored) [] in
  ("a1" <> "" /\ "r1" <> "")
  /\ token reloaded = JStr "a1" /\ refreshToken reloaded = JStr "r1".
Proof.
  intros stored reloaded.
  assert ("a1" <> "") as Ha by discriminate.
  assert ("r1" <> "") as Hr by discriminate.
  destruct (tokens_survive_reload signed_in "a1" "r1" [] Ha Hr) as (Ht & Hrf & _).
  split; [by split|]. split; [exact Ht | exact Hrf].
Defined.

Lemma set_localStorage_ext w ls ls' : ls = ls' -> set_localStorage ls w = set_localStorage ls' w.
Proof. by intros ->. Qed.

(** X2: [clearTokens] leaves no token in the service or in [localStorage]
    (a reload finds none either) and touches no other key; clearing twice
    is clearing once; and it is [setToken(null)] followed by forgetting
    the refresh token that [setToken(null)] keeps in [this.refreshToken]. *)
Theorem clearTokens_empties_the_store (w : World) (objs : list jsobj) :
  (token (clearTokens w) = JNull /\ refreshToken (clearTokens w) = JNull
   /\ isAuthenticated (clearTokens w) = false
   /\ obj_has "Authorization" (getAuthHeaders (clearTokens w)) = false)
  /\ (token (constructor (localStorage (clearTokens w)) objs) = JNull
      /\ refreshToken (constructor (localStorage (clearTokens w)) objs) = JNull)
  /\ (forall k, k <> "access_token" -> k <> "refresh_token" ->
                localStorage (clearTokens w) !! k = localStorage w !! k)
  /\ clearTokens (clearTokens w) = clearTokens w
  /\ clearTokens w = set_refreshToken JNull (setToken JNull JUndefined w)
  /\ refreshToken (setToken JNull JUndefined w) = refreshToken w.
Proof.
  destruct (clearTokens_spec w) as (Ht & Hr & Ha & Hf).
  split; [|split; [|split; [|split; [|split]]]].
  - split; [done|]. split; [done|]. split; [unfold isAuthenticated; by rewrite Ht|].
    rewrite getAuthHeaders_has_authorization. by rewrite Ht.
  - unfold constructor, getItem.
    cbn [token refreshToken set_token set_refreshToken set_refreshPromise localStorage].
    by rewrite Ha, Hf.
  - intros k Hk1 Hk2. unfold clearTokens, removeItem.
    cbn [localStorage set_localStorage set_token set_refreshToken].
    by rewrite !lookup_delete_ne.
  - destruct w as [t r p ls h hp n i c rs].
    cbv [clearTokens removeItem set_localStorage set_token set_refreshToken
         localStorage token refreshToken refreshPromise href heap net inflight calls
         results].
    f_equal.
    rewrite (delete_delete (delete "access_token" ls) "access_token" "refresh_token").
    by rewrite !delete_delete_eq.
  - reflexivity.
  - reflexivity.
Qed.

(** ** Responses, case by case *)

Lemma makeRequest_response_refresh rid n r w :
  starts_refresh n r w = true ->
  n = 0 /\ truthy (refreshToken w) = true
  /\ (exists body, r = Response 401 body)
  /\ makeRequest_response rid n r w = await_refresh rid (snd (refreshAccessToken w)).
Proof.
  unfold starts_refresh, makeRequest_response.
  destruct r as [reason|status body]; [done|].
  intros Hg. rewrite Hg.
  apply andb_true_iff in Hg as [Hg Hrt]. apply andb_true_iff in Hg as [Hst Hn].
  apply Nat.eqb_eq in Hn. apply Z.eqb_eq in Hst. subst.
  split; [done|]. split; [done|]. split; [by eexists|].
  unfold refreshAccessToken. rewrite Hrt. cbn [negb].
  by destruct (refreshPromise w).
Qed.

(** X3: the answer to a request of the application never changes the
    tokens, in the service or in [localStorage], nor the location of the
    page nor any object; the only fetch it can cause is one refresh call,
    and only when the answer is a 401 to a first attempt, a refresh token
    is stored and no refresh is pending. *)
Theorem request_answers_leave_the_store (w : World) (id rid n : nat)
    (fc : FetchCall) (r : FetchResult)
    (Hid : net w !! id = Some (fc, KFetch rid n)) :
  same_tokens w (settle id r w)
  /\ href (settle id r w) = href w
  /\ heap (settle id r w) = heap w
  /\ (net (settle id r w) = net w
      \/ (net (settle id r w) = net w ++ [(refresh_call w, KRefresh)]
          /\ starts_refresh n r w = true /\ refreshPromise w = None)).
Proof.
  unfold settle. destruct (existsb (Nat.eqb id) (inflight w)).
  2:{ unfold same_tokens. split; [done|]. split; [done|]. split; [done|]. by left. }
  cbn [net set_inflight]. rewrite Hid.
  set (w1 := set_inflight _ w).
  destruct (starts_refresh n r w1) eqn:Hg.
  - destruct (makeRequest_response_refresh rid n r w1 Hg) as (-> & Hrt & _ & ->).
    unfold refreshAccessToken. rewrite Hrt. cbn [negb].
    destruct (refreshPromise w1) as [p|] eqn:Hp.
    + unfold await_refresh. cbn [snd]. rewrite Hp.
      unfold same_tokens. split; [done|]. split; [done|]. split; [done|]. by left.
    + unfold same_tokens. split; [done|]. split; [done|]. split; [done|]. by right.
  - rewrite (makeRequest_response_plain rid n r w1 Hg).
    unfold same_tokens. split; [done|]. split; [done|]. split; [done|]. by left.
Qed.

Lemma request_answers_leave_the_store_witness :
  net two_out !! 1 = Some ({| f_url := "http://localhost:8000/api/auth/me";
                              f_config := config_for (JStr "a0") [] |}, KFetch 1 0)
  /\ same_tokens two_out (settle 1 (Response 401 None) two_out)
  /\ net (settle 1 (Response 401 None) two_out)
     = net two_out ++ [(refresh_call two_out, KRefresh)].
Proof.
  assert (net two_out !! 1 = Some ({| f_url := "http://localhost:8000/api/auth/me";
                                      f_config := config_for (JStr "a0") [] |}, KFetch 1 0))
    as Hid by (vm_compute; reflexivity).
  destruct (request_answers_leave_the_store two_out 1 1 0 _ (Response 401 None) Hid)
    as (Hsame & _ & _ & Hnet).
  split; [exact Hid|]. split; [exact Hsame|].
  destruct Hnet as [Hnet|[Hnet _]]; [|exact Hnet].
  exfalso. apply (f_equal length) in Hnet. vm_compute in Hnet. discriminate Hnet.
Defined.

(** ** The two clients *)

(** X4: on every response that starts no refresh, the client with refresh
    tokens settles the request as the client without them does: the same
    value when the call succeeds, the same message when it fails, the
    error gaining only its [status] and [data] fields; and the old way of
    calling [setToken], with the access token alone, now also erases the
    [refresh_token] entry of [localStorage]. *)
Theorem refresh_client_extends_legacy_client (w : World) (rid n : nat) (r : FetchResult)
    (Hplain : starts_refresh n r w = false) :
  (exists out,
      makeRequest_response rid n r w = finish rid out w
      /\ forget_payload out = Legacy.request_response r)
  /\ (forall tok,
        setToken tok JUndefined w = removeItem "refresh_token" (Legacy.setToken tok w)).
Proof.
  split.
  - exists (settles_with r). split; [by apply makeRequest_response_plain|].
    unfold settles_with, Legacy.request_response, forget_payload.
    destruct r as [reason|status body]; [done|].
    destruct (negb (ok status)).
    + by destruct (GetV _ "detail").
    + by destruct body.
  - intros tok. unfold setToken, Legacy.setToken. cbn [default_arg truthy is_null].
    by destruct (truthy tok).
Qed.

Lemma refresh_client_extends_legacy_client_witness :
  let r := Response 409 (Some (JObj [("detail", JStr "conflict")])) in
  starts_refresh 0 r two_out = false
  /\ Legacy.request_response r = Rejected (Error "conflict" None None)
  /\ exists out,
      makeRequest_response 0 0 r two_out = finish 0 out two_out
      /\ forget_payload out = Legacy.request_response r.
Proof.
  intros r.
  assert (starts_refresh 0 r two_out = false) as Hplain by (vm_compute; reflexivity).
  split; [exact Hplain|]. split; [vm_compute; reflexivity|].
  exact (proj1 (refresh_client_extends_legacy_client two_out 0 0 r Hplain)).
Defined.

(** ** One request on an idle page *)

Lemma request_eq endpoint r w :
  request endpoint (Some r) w
  = (length (calls w),
     set_inflight (inflight w ++ [length (net w)])
       (set_net (net w ++ [({| f_url := request_url endpoint (deref r w);
                               f_config := config_for (token w) (deref r w) |},
                            KFetch (length (calls w)) 0)])
          (set_heap (heap w ++ [config_for (token w) (deref r w)])
             (set_calls (calls w ++ [{| c_url := request_url endpoint (deref r w);
                                        c_options := r |}]) w)))).
Proof.
  unfold request. cbn [calls set_calls].
  rewrite (makeRequest_eq _ 0 _ {| c_url := request_url endpoint (deref r w);
                                   c_options := r |})
    by apply lookup_snoc_length.
  reflexivity.
Qed.

Lemma request_default_eq endpoint w :
  request endpoint None w
  = request endpoint (Some (length (heap w))) (set_heap (heap w ++ [[]]) w).
Proof. reflexivity. Qed.

Lemma request_with_eq endpoint options w :
  request_with endpoint options w
  = request endpoint (Some (length (heap w))) (set_heap (heap w ++ [options]) w).
Proof. reflexivity. Qed.

Lemma starts_refresh_retry r w : starts_refresh 1 r w = false.
Proof.
  unfold starts_refresh. destruct r as [reason|status body]; [done|].
  cbn [Nat.eqb]. by rewrite andb_false_r.
Qed.

Lemma settle_only id k fc r w :
  inflight w = [id] -> net w !! id = Some (fc, k) ->
  settle id r w
  = match k with
    | KFetch rid n => makeRequest_response rid n r (set_inflight [] w)
    | KRefresh => refresh_settled r (set_inflight [] w)
    end.
Proof.
  intros Hin Hid. unfold settle. rewrite Hin.
  cbn [existsb List.filter]. rewrite Nat.eqb_refl. cbn [orb negb net set_inflight].
  by rewrite Hid.
Qed.

Lemma first_answer_plain id rid n r w :
  one_out id rid n w -> starts_refresh n r w = false ->
  settle id r w = finish rid (settles_with r) (set_inflight [] w).
Proof.
  intros (Hin & [fc Hid] & Hp) Hg.
  rewrite (settle_only id _ fc r w Hin Hid).
  by apply makeRequest_response_plain.
Qed.

Lemma first_answer_refresh id rid r w :
  one_out id rid 0 w -> starts_refresh 0 r w = true ->
  settle id r w
  = set_refreshPromise (Some {| pid := length (net w); waiters := [rid] |})
      (set_inflight [length (net w)]
         (set_net (net w ++ [(refresh_call w, KRefresh)]) w)).
Proof.
  intros (Hin & [fc Hid] & Hp) Hg.
  rewrite (settle_only id _ fc r w Hin Hid).
  destruct (makeRequest_response_refresh rid 0 r (set_inflight [] w) Hg)
    as (_ & Hrt & _ & ->).
  rewrite refreshAccessToken_start by done. reflexivity.
Qed.

Lemma refresh_answer id rid r w :
  refreshing id rid w ->
  settle id r w
  = resume (fst (refresh_chain r (set_inflight [] w)))
           (snd (refresh_chain r (set_inflight [] w))) rid.
Proof.
  intros (Hin & [fc Hid] & Hp).
  rewrite (settle_only id _ fc r w Hin Hid).
  unfold refresh_settled. cbn [refreshPromise set_inflight]. rewrite Hp.
  cbn [waiters]. by destruct (refresh_chain r (set_inflight [] w)).
Qed.

Lemma serve1_idle w r : inflight w = [] -> serve1 w r = w.
Proof. intros Hin. unfold serve1. by rewrite Hin. Qed.

Lemma serve1_only id w r : inflight w = [id] -> serve1 w r = settle id r w.
Proof. intros Hin. unfold serve1. by rewrite Hin. Qed.

Lemma serve_idle answers : forall w, inflight w = [] -> serve answers w = w.
Proof.
  induction answers as [|r answers IH]; intros w Hin; [done|].
  unfold serve in *. cbn [fold_left]. rewrite serve1_idle by done. by apply IH.
Qed.

(** The retry of request [rid], out on its own, and its answer. *)
Lemma retry_out_then_answer rid c a rt w r :
  inflight w = [] -> calls w !! rid = Some c ->
  let w3 := set_refreshPromise None (setToken a rt w) in
  let w4 := makeRequest rid 1 w3 in
  one_out (length (net w)) rid 1 w4
  /\ net w4 = net w ++ [({| f_url := c_url c;
                            f_config := config_for a (deref (c_options c) w) |},
                         KFetch rid 1)]
  /\ results w4 = results w /\ calls w4 = calls w
  /\ token w4 = a
  /\ settle (length (net w)) r w4 = finish rid (settles_with r) (set_inflight [] w4).
Proof.
  intros Hin Hc w3 w4.
  destruct (setToken_frame a rt w) as (Hp & Hhr & Hh & Hn & Hi & Hcs & Hres).
  assert (calls w3 !! rid = Some c) as Hc3 by (unfold w3; cbn [calls set_refreshPromise]; by rewrite Hcs).
  assert (w4 = set_inflight (inflight w3 ++ [length (net w3)])
                 (set_net (net w3 ++ [({| f_url := c_url c;
                                          f_config := config_for (token w3) (deref (c_options c) w3) |},
                                       KFetch rid 1)])
                    (set_heap (heap w3 ++ [config_for (token w3) (deref (c_options c) w3)]) w3)))
    as Hw4 by apply (makeRequest_eq rid 1 w3 c Hc3).
  assert (net w3 = net w) as Hn3 by apply Hn.
  assert (inflight w3 = []) as Hi3 by (unfold w3; cbn [inflight set_refreshPromise]; by rewrite Hi).
  assert (token w3 = a) as Ht3 by apply token_setToken.
  assert (deref (c_options c) w3 = deref (c_options c) w) as Hd3
    by (unfold deref, w3; cbn [heap set_refreshPromise]; by rewrite Hh).
  assert (one_out (length (net w)) rid 1 w4) as Hout.
  { rewrite Hw4. unfold one_out. cbn [inflight net refreshPromise set_inflight set_net set_heap].
    rewrite Hi3, Hn3. split; [done|]. split; [|done].
    eexists. apply lookup_snoc_length. }
  split; [exact Hout|].
  split; [rewrite Hw4; cbn [net set_inflight set_net]; by rewrite Hn3, Ht3, Hd3|].
  split; [rewrite Hw4; cbn [results set_inflight set_net set_heap]; apply Hres|].
  split; [rewrite Hw4; cbn [calls set_inflight set_net set_heap]; apply Hcs|].
  split; [rewrite Hw4; cbn [token set_inflight set_net set_heap]; exact Ht3|].
  apply (first_answer_plain _ rid 1); [exact Hout | apply starts_refresh_retry].
Qed.

(** The three answers that a request on its own can need. *)
Lemma one_request_three_answers w1 id rid c r1 r2 r3 :
  one_out id rid 0 w1 -> calls w1 !! rid = Some c ->
  let w' := serve [r1; r2; r3] w1 in
  (exists out, results w' = results w1 ++ [(rid, out)])
  /\ inflight w' = [] /\ refreshPromise w' = None
  /\ length (net w') <= length (net w1) + 2
  /\ calls w' = calls w1.
Proof.
  intros Hout Hc. pose proof Hout as (Hin & _ & Hp).
  unfold serve. cbn [fold_left]. rewrite (serve1_only id w1 r1 Hin).
  destruct (starts_refresh 0 r1 w1) eqn:Hg.
  - rewrite (first_answer_refresh id rid r1 w1 Hout Hg).
    set (w2 := set_refreshPromise _ _).
    assert (refreshing (length (net w1)) rid w2) as Hrefr.
    { unfold refreshing, w2. cbn [inflight net refreshPromise set_refreshPromise set_inflight set_net].
      split; [done|]. split; [|done]. eexists. apply lookup_snoc_length. }
    rewrite (serve1_only (length (net w1)) w2 r2) by apply Hrefr.
    rewrite (refresh_answer _ rid r2 w2 Hrefr).
    destruct (refresh_chain r2 (set_inflight [] w2)) as [[d|e] w3] eqn:Hchain; cbn [fst snd resume].
    + destruct (refresh_chain_resolved _ _ _ _ Hchain)
        as (status & a & rt & _ & _ & _ & _ & ->).
      destruct (retry_out_then_answer rid c a rt (set_inflight [] w2) r3)
        as (Hout4 & Hnet4 & Hres4 & Hcalls4 & _ & Hsettle); [done | done |].
      cbn [net set_inflight] in Hout4, Hsettle, Hnet4.
      rewrite (serve1_only _ _ r3 (proj1 Hout4)), Hsettle.
      cbn [results inflight refreshPromise net calls finish set_results set_inflight].
      rewrite Hres4, Hnet4, Hcalls4.
      split; [by eexists|]. split; [done|]. split; [apply Hout4|].
      split; [|done]. unfold w2. cbn [net set_refreshPromise set_inflight set_net].
      rewrite !length_app. cbn [length]. lia.
    + rewrite (refresh_chain_rejected _ _ _ _ Hchain).
      rewrite serve1_idle by done.
      split; [by eexists|]. split; [done|]. split; [done|].
      split; [|done]. unfold w2. cbn. rewrite length_app. cbn [length]. lia.
  - rewrite (first_answer_plain id rid 0 r1 w1 Hout Hg).
    rewrite !serve1_idle by done.
    split; [by eexists|]. split; [done|]. split; [done|]. split; [cbn; lia | done].
Qed.

Lemma idle_no_refresh w : wf w -> idle w -> refreshPromise w = None.
Proof.
  intros Hwf Hidle. pose proof (wf_refresh w Hwf) as Hout.
  unfold outstanding_refreshes in Hout. rewrite Hidle in Hout.
  by destruct (refreshPromise w).
Qed.

Lemma request_one_out endpoint r w :
  idle w -> refreshPromise w = None ->
  let w1 := snd (request endpoint (Some r) w) in
  one_out (length (net w)) (length (calls w)) 0 w1
  /\ fst (request endpoint (Some r) w) = length (calls w)
  /\ calls w1 !! length (calls w)
     = Some {| c_url := request_url endpoint (deref r w); c_options := r |}
  /\ results w1 = results w
  /\ net w1 = net w ++ [({| f_url := request_url endpoint (deref r w);
                            f_config := config_for (token w) (deref r w) |},
                         KFetch (length (calls w)) 0)]
  /\ same_tokens w w1 /\ href w1 = href w
  /\ heap w1 = heap w ++ [config_for (token w) (deref r w)].
Proof.
  intros Hidle Hp. rewrite request_eq. cbn [fst snd].
  unfold one_out, same_tokens.
  cbn [inflight net refreshPromise calls results token refreshToken localStorage href heap
       set_inflight set_net set_heap set_calls].
  rewrite Hidle. split; [|split; [done|split; [apply lookup_snoc_length|done]]].
  split; [done|]. split; [|done]. eexists. apply lookup_snoc_length.
Qed.

Lemma request_three_answers endpoint r w r1 r2 r3 :
  wf w -> idle w ->
  let rid := fst (request endpoint (Some r) w) in
  let w' := serve [r1; r2; r3] (snd (request endpoint (Some r) w)) in
  (exists out, results w' = results w ++ [(rid, out)])
  /\ idle w' /\ refreshPromise w' = None
  /\ length (net w') <= length (net w) + 3.
Proof.
  intros Hwf0 Hidle0.
  pose proof (idle_no_refresh w Hwf0 Hidle0) as Hp0.
  destruct (request_one_out endpoint r w Hidle0 Hp0)
    as (Hout & Hrid & Hc & Hres1 & Hnet1 & _).
  cbn zeta. rewrite Hrid.
  destruct (one_request_three_answers _ _ _ _ r1 r2 r3 Hout Hc)
    as (Hres & Hin & Hp & Hlen & _).
  rewrite Hres1 in Hres. rewrite Hnet1, length_app in Hlen. cbn [length] in Hlen.
  split; [exact Hres|]. split; [exact Hin|]. split; [exact Hp|]. lia.
Qed.

(** X5: on a page with nothing in flight, a call of [request] settles
    once the transport has answered at most three fetches (the first
    attempt, the refresh, the retry): after three answers the request has
    exactly one outcome, nothing is in flight, no refresh is pending, and
    at most three fetches have gone out; further answers change nothing. *)
Theorem request_settles_within_three_answers (w : World) (endpoint : string)
    (options : option nat) (r1 r2 r3 : FetchResult) (more : list FetchResult)
    (Hreach : reachable w) (Hidle : idle w) :
  let rid := fst (request endpoint options w) in
  let w' := serve [r1; r2; r3] (snd (request endpoint options w)) in
  (exists out, results w' = results w ++ [(rid, out)])
  /\ idle w' /\ refreshPromise w' = None
  /\ length (net w') <= length (net w) + 3
  /\ serve (r1 :: r2 :: r3 :: more) (snd (request endpoint options w)) = w'.
Proof.
  pose proof (reachable_wf w Hreach) as Hwf.
  assert ((exists out,
              results (serve [r1; r2; r3] (snd (request endpoint options w)))
              = results w ++ [(fst (request endpoint options w), out)])
          /\ idle (serve [r1; r2; r3] (snd (request endpoint options w)))
          /\ refreshPromise (serve [r1; r2; r3] (snd (request endpoint options w))) = None
          /\ length (net (serve [r1; r2; r3] (snd (request endpoint options w))))
             <= length (net w) + 3) as Hmain.
  { destruct options as [r|]; [by apply request_three_answers|].
    rewrite request_default_eq.
    apply (request_three_answers endpoint (length (heap w)) (set_heap (heap w ++ [[]]) w));
      [|exact Hidle].
    apply wf_heap_grow; [|done]. rewrite length_app. lia. }
  destruct Hmain as (Hres & Hin & Hp & Hlen).
  split; [exact Hres|]. split; [exact Hin|]. split; [exact Hp|]. split; [exact Hlen|].
  change (r1 :: r2 :: r3 :: more) with ([r1; r2; r3] ++ more).
  unfold serve at 1. rewrite fold_left_app. by apply serve_idle.
Qed.

Lemma request_settles_within_three_answers_witness :
  reachable signed_in /\ idle signed_in
  /\ exists out,
      results (serve [Response 401 None; Response 200 (Some fresh_pair);
                      Response 500 None]
                 (snd (request "/auth/me" None signed_in)))
      = results signed_in ++ [(fst (request "/auth/me" None signed_in), out)].
Proof.
  assert (idle signed_in) as Hidle by reflexivity.
  split; [exact reachable_signed_in|]. split; [exact Hidle|].
  exact (proj1 (request_settles_within_three_answers signed_in "/auth/me" None
                  (Response 401 None) (Response 200 (Some fresh_pair))
                  (Response 500 None) [] reachable_signed_in Hidle)).
Defined.

(** X6: an expired access token is renewed behind the caller's back.  On a
    page with nothing in flight and a refresh token stored, when the first
    attempt is answered 401, the refresh succeeds and the retry gets a 2xx
    response with a JSON body, nothing else happening on the page
    meanwhile, the call resolves with that body; exactly three fetches have
    gone out, the first attempt built from the old token, the refresh call,
    and the retry to the same URL built from the same options and the new
    access token; and the service holds the new access token.  When the
    options have no [headers] of their own, the first attempt carries the
    headers of the old token and the retry those of the new one; when they
    have, the retry is the first attempt again, its headers included. *)
Theorem expired_token_refreshed_transparently (w : World) (endpoint : string)
    (r : nat) (o : jsobj) (body : option jsval) (status2 status3 : Z)
    (data a rt v : jsval)
    (Hreach : reachable w) (Hidle : idle w) (Hobj : heap w !! r = Some o)
    (Hrt : truthy (refreshToken w) = true)
    (Hok2 : ok status2 = true)
    (Ha : GetV data "access_token" = Some a) (Hr : GetV data "refresh_token" = Some rt)
    (Hok3 : ok status3 = true) :
  let rid := fst (request endpoint (Some r) w) in
  let w' := serve [Response 401 body; Response status2 (Some data);
                   Response status3 (Some v)]
              (snd (request endpoint (Some r) w)) in
  results w' = results w ++ [(rid, Resolved v)]
  /\ net w'
     = net w ++ [({| f_url := request_url endpoint o;
                     f_config := config_for (token w) o |}, KFetch rid 0);
                 (refresh_call w, KRefresh);
                 ({| f_url := request_url endpoint o;
                     f_config := config_for a o |}, KFetch rid 1)]
  /\ token w' = a
  /\ idle w' /\ refreshPromise w' = None
  /\ (obj_has "headers" o = false ->
      obj_get "headers" (config_for (token w) o) = JObj (auth_headers (token w))
      /\ obj_get "headers" (config_for a o) = JObj (auth_headers a))
  /\ (obj_has "headers" o = true -> config_for a o = config_for (token w) o).
Proof.
  pose proof (reachable_wf w Hreach) as Hwf.
  pose proof (idle_no_refresh w Hwf Hidle) as Hp.
  destruct (request_one_out endpoint r w Hidle Hp)
    as (Hout & Hrid & Hc & Hres1 & Hnet1 & (Ht1 & Hrt1 & _) & _ & Hheap1).
  cbn zeta in *. rewrite Hrid.
  set (w1 := snd (request endpoint (Some r) w)) in *.
  assert (deref r w = o) as Hd by (unfold deref; by rewrite Hobj).
  rewrite Hd in Hc, Hnet1, Hheap1.
  unfold serve. cbn [fold_left].
  rewrite (serve1_only _ w1 _ (proj1 Hout)).
  assert (starts_refresh 0 (Response 401 body) w1 = true) as Hg.
  { unfold starts_refresh. rewrite Hrt1, Hrt. reflexivity. }
  rewrite (first_answer_refresh _ _ _ w1 Hout Hg).
  set (w2 := set_refreshPromise _ _).
  assert (refreshing (length (net w1)) (length (calls w)) w2) as Hrefr.
  { unfold refreshing, w2.
    cbn [inflight net refreshPromise set_refreshPromise set_inflight set_net].
    split; [done|]. split; [|done]. eexists. apply lookup_snoc_length. }
  rewrite (serve1_only _ w2 _ (proj1 Hrefr)).
  rewrite (refresh_answer _ _ _ w2 Hrefr).
  rewrite (refresh_chain_success status2 data a rt _ Hok2 Ha Hr). cbn [fst snd resume].
  destruct (retry_out_then_answer (length (calls w)) _ a rt (set_inflight [] w2)
              (Response status3 (Some v)) eq_refl Hc)
    as (Hout4 & Hnet4 & Hres4 & _ & Htok4 & Hsettle).
  cbn [net set_inflight] in Hout4, Hsettle, Hnet4.
  rewrite (serve1_only _ _ _ (proj1 Hout4)), Hsettle.
  cbn [results net token inflight refreshPromise finish set_results set_inflight].
  rewrite Hres4, Hnet4, Htok4.
  assert (deref r (set_inflight [] w2) = o) as Hd2.
  { unfold deref, w2.
    cbn [heap set_refreshPromise set_inflight set_net]. rewrite Hheap1.
    by rewrite (lookup_app_l_Some _ _ _ _ Hobj). }
  cbn [c_options c_url]. rewrite Hd2.
  unfold settles_with. rewrite Hok3. cbn [negb].
  split; [unfold w2; cbn [results set_refreshPromise set_inflight set_net]; by rewrite Hres1|].
  split.
  { unfold w2. cbn [net set_refreshPromise set_inflight set_net].
    rewrite Hnet1, <- !app_assoc. cbn [app].
    assert (refresh_call w1 = refresh_call w) as -> by (unfold refresh_call; by rewrite Hrt1).
    done. }
  split; [done|]. split; [done|]. split; [apply Hout4|].
  split.
  - intros Hno. split; by apply config_for_built_headers.
  - intros Hown. by apply config_for_own_headers.
Qed.

Lemma expired_token_refreshed_transparently_witness :
  let w' := serve [Response 401 None; Response 200 (Some fresh_pair);
                   Response 200 (Some (JArr []))]
              (snd (request "/problems" (Some 0) signed_in)) in
  (reachable signed_in /\ idle signed_in
   /\ truthy (refreshToken signed_in) = true)
  /\ results w' = results signed_in
                  ++ [(fst (request "/problems" (Some 0) signed_in), Resolved (JArr []))]
  /\ token w' = JStr "a1".
Proof.
  intros w'.
  assert (idle signed_in) as Hidle by reflexivity.
  assert (truthy (refreshToken signed_in) = true) as Hrt by (vm_compute; reflexivity).
  assert (heap signed_in !! 0
          = Some [("method", JStr "GET"); ("params", JObj [("tag", JStr "dp")])])
    as Hobj by reflexivity.
  destruct (expired_token_refreshed_transparently signed_in "/problems" 0 _ None
              200%Z 200%Z fresh_pair (JStr "a1") (JStr "r1") (JArr [])
              reachable_signed_in Hidle Hobj Hrt eq_refl eq_refl eq_refl eq_refl)
    as (Hres & _ & Htok & _).
  split; [split; [exact reachable_signed_in|split; [exact Hidle | exact Hrt]]|].
  split; [exact Hres | exact Htok].
Defined.

(** ** The methods built on [request] *)

Lemma obj_delete_filter k (o : jsobj) :
  obj_delete k o = List.filter (fun kv => negb (String.eqb (fst kv) k)) o.
Proof.
  induction o as [|[k' v] o IH]; [done|].
  cbn [obj_delete List.filter fst]. destruct (String.eqb k' k); cbn [negb]; by rewrite IH.
Qed.

Lemma filter_map_comm {A B} (f : A -> B) (P : B -> bool) (l : list A) :
  List.filter P (List.map f l) = List.map f (List.filter (fun x => P (f x)) l).
Proof.
  induction l as [|x l IH]; [done|].
  cbn [List.map List.filter]. destruct (P (f x)); cbn [List.map]; by rewrite IH.
Qed.

Lemma searchParams_without_user_id params :
  searchParams_of (without_user_id params)
  = List.filter (fun kv => negb (String.eqb (fst kv) "user_id")) (searchParams_of params).
Proof.
  rewrite !searchParams_of_kept. unfold kept_entries, without_user_id.
  cbn [Object_entries]. rewrite obj_delete_filter, filter_map_comm.
  cbn [fst]. by rewrite filter_filter_comm.
Qed.

(** X7: [getProblems] never puts [user_id] in the query string: the
    parameters sent are those of the caller, in order, without [user_id]
    (and without the ones that are null or undefined); the request is a GET to
    [/problems] whose configuration has no [params] field; and with [null]
    for parameters no request is made at all. *)
Theorem getProblems_never_sends_user_id (params : jsval) (w : World) :
  let given := default_arg (JObj []) params in
  (forall k v, In (k, v) (searchParams_of (without_user_id given)) -> k <> "user_id")
  /\ searchParams_of (without_user_id given)
     = List.filter (fun kv => negb (String.eqb (fst kv) "user_id")) (searchParams_of given)
  /\ (is_null given = false ->
      fst (getProblems params w) = Some (length (calls w))
      /\ net (snd (getProblems params w))
         = net w ++ [({| f_url :=
                           request_url "/problems" [("params", without_user_id given)];
                         f_config :=
                           [("headers", JObj (getAuthHeaders w)); ("method", JStr "GET")] |},
                      KFetch (length (calls w)) 0)])
  /\ (is_null given = true -> getProblems params w = (None, w)).
Proof.
  intros given. split; [|split; [apply searchParams_without_user_id|split]].
  - intros k v Hin. rewrite searchParams_without_user_id in Hin.
    apply List.filter_In in Hin as [_ Hne]. cbn [fst] in Hne.
    apply negb_true_iff in Hne. by apply String.eqb_neq in Hne.
  - intros Hnn. unfold getProblems. fold given. rewrite Hnn.
    rewrite request_with_eq, request_eq. cbn [fst snd].
    split; [done|].
    cbn [net set_inflight set_net set_heap set_calls deref heap token].
    rewrite deref_set_heap, lookup_snoc_length. reflexivity.
  - intros Hn. unfold getProblems. fold given. by rewrite Hn.
Qed.

Lemma getProblems_never_sends_user_id_witness :
  let params := JObj [("user_id", JStr "u1"); ("tag", JStr "dp"); ("q", JNull)] in
  is_null (default_arg (JObj []) params) = false
  /\ List.map (fun e => f_url (fst e)) (net (snd (getProblems params signed_in)))
     = ["http://localhost:8000/api/problems?tag=dp"].
Proof.
  intros params. split; [reflexivity|].
  destruct (getProblems_never_sends_user_id params signed_in) as (_ & _ & Hsent & _).
  destruct (Hsent eq_refl) as [_ Hnet]. rewrite Hnet. vm_compute. reflexivity.
Defined.

Lemma wf_new_object w o : wf w -> wf (set_heap (heap w ++ [o]) w).
Proof. intros Hwf. apply wf_heap_grow; [|done]. rewrite length_app. lia. Qed.

Lemma request_with_three_answers endpoint o w r1 r2 r3 :
  wf w -> idle w ->
  let rid := fst (request_with endpoint o w) in
  let w1 := snd (request_with endpoint o w) in
  let w' := serve [r1; r2; r3] w1 in
  (exists out, results w' = results w ++ [(rid, out)])
  /\ idle w' /\ refreshPromise w' = None
  /\ net w1 = net w ++ [({| f_url := request_url endpoint o;
                            f_config := config_for (token w) o |}, KFetch rid 0)]
  /\ same_tokens w w1.
Proof.
  intros Hwf Hidle. cbn zeta. rewrite request_with_eq.
  set (w0 := set_heap (heap w ++ [o]) w).
  assert (wf w0) as Hwf0 by by apply wf_new_object.
  assert (idle w0) as Hidle0 by exact Hidle.
  destruct (request_three_answers endpoint (length (heap w)) w0 r1 r2 r3 Hwf0 Hidle0)
    as (Hres & Hin & Hp & _).
  destruct (request_one_out endpoint (length (heap w)) w0 Hidle0
              (idle_no_refresh w0 Hwf0 Hidle0))
    as (_ & Hrid & _ & _ & Hnet1 & Hsame & _).
  assert (deref (length (heap w)) w0 = o) as Hd
    by (unfold w0; by rewrite deref_set_heap, lookup_snoc_length).
  rewrite Hd in Hnet1. rewrite Hrid in *.
  split; [exact Hres|]. split; [exact Hin|]. split; [exact Hp|].
  split; [exact Hnet1 | exact Hsame].
Qed.



(** X8: [logout] sends [POST /auth/logout] with the headers of the
    current token, the tokens staying in place while the request is out.
    Once the request has settled, whatever its outcome, [logout] resolves
    with [{ success: true }], and at that moment no token is left in the
    service or in [localStorage].  On a page with nothing else in flight
    the request settles within three answers of the transport.  A refresh
    that is pending when [logout] resolves is not called off: when it
    succeeds afterwards, the service holds the access token of its
    response, and the refresh token of that response when it is truthy. *)
Theorem logout_clears_when_it_resolves (w : World) :
  (net (snd (logout w))
   = net w ++ [({| f_url := API_BASE_URL +:+ "/auth/logout";
                   f_config := [("headers", JObj (getAuthHeaders w));
                                ("method", JStr "POST")] |}, KFetch (fst (logout w)) 0)]
   /\ same_tokens w (snd (logout w)))
  /\ (forall out w',
        fst (logout_then out w') = Resolved success
        /\ token (snd (logout_then out w')) = JNull
        /\ refreshToken (snd (logout_then out w')) = JNull
        /\ localStorage (snd (logout_then out w')) !! "access_token" = None
        /\ localStorage (snd (logout_then out w')) !! "refresh_token" = None)
  /\ (reachable w -> idle w ->
      forall r1 r2 r3, exists out,
        results (serve [r1; r2; r3] (snd (logout w)))
        = results w ++ [(fst (logout w), out)])
  /\ (forall out w' p status data a rt,
        reachable w' -> refreshPromise w' = Some p -> ok status = true ->
        GetV data "access_token" = Some a -> GetV data "refresh_token" = Some rt ->
        let w'' := settle (pid p) (Response status (Some data))
                     (snd (logout_then out w')) in
        token w'' = a /\ (truthy rt = true -> refreshToken w'' = rt)).
Proof.
  split; [|split; [|split]].
  - unfold logout. rewrite request_with_eq, request_eq. cbn [fst snd].
    cbn [net set_inflight set_net set_heap set_calls heap calls token].
    rewrite deref_set_heap, lookup_snoc_length. split; [reflexivity|].
    unfold same_tokens. done.
  - intros out w'. split; [done|]. apply clearTokens_spec.
  - intros Hreach Hidle r1 r2 r3.
    pose proof (reachable_wf w Hreach) as Hwf.
    exact (proj1 (request_with_three_answers "/auth/logout" [("method", JStr "POST")] w
                    r1 r2 r3 Hwf Hidle)).
  - intros out w' p status data a rt Hreach Hp Hok Ha Hr.
    pose proof (reachable_wf w' Hreach) as Hwf.
    cbn [logout_then snd].
    destruct (settle_refresh_success (clearTokens w') p status data a rt
                (wf_clearTokens w' Hwf) Hp Hok Ha Hr) as (Ht & Hrt & _).
    cbn zeta in Ht, Hrt. split; [exact Ht|].
    intros Htr. rewrite Hrt. by apply setToken_refresh_stored.
Qed.

Lemma logout_clears_when_it_resolves_witness :
  (reachable signed_in /\ idle signed_in
   /\ exists out,
       results (serve [NetworkError "offline"; Response 200 None; Response 200 None]
                  (snd (logout signed_in)))
       = results signed_in ++ [(fst (logout signed_in), out)])
  /\ (reachable two_waiting
      /\ refreshPromise two_waiting = Some {| pid := 2; waiters := [0; 1] |}
      /\ token (settle 2 (Response 200 (Some fresh_pair))
                  (snd (logout_then (Resolved success) two_waiting))) = JStr "a1").
Proof.
  assert (idle signed_in) as Hidle by reflexivity.
  assert (refreshPromise two_waiting = Some {| pid := 2; waiters := [0; 1] |}) as Hp
    by (vm_compute; reflexivity).
  split.
  - split; [exact reachable_signed_in|]. split; [exact Hidle|].
    exact (proj1 (proj2 (proj2 (logout_clears_when_it_resolves signed_in)))
             reachable_signed_in Hidle _ _ _).
  - split; [exact reachable_two_waiting|]. split; [exact Hp|].
    exact (proj1 (proj2 (proj2 (proj2 (logout_clears_when_it_resolves signed_in)))
                    (Resolved success) two_waiting _ 200%Z fresh_pair (JStr "a1")
                    (JStr "r1") reachable_two_waiting Hp eq_refl eq_refl eq_refl)).
Defined.






(** ** Before and after a refresh *)

Lemma refresh_chain_outcome r w w0 : fst (refresh_chain r w) = fst (refresh_chain r w0).
Proof.
  unfold refresh_chain, refresh_then.
  destruct r as [reason|status body]; [done|].
  destruct (negb (ok status)); [done|].
  destruct body as [data|]; [|done].
  destruct (GetV data "access_token"); [|done].
  by destruct (GetV data "refresh_token").
Qed.

(** X11: a request made after a refresh has succeeded reads the new
    access token from the service: it goes out with the headers of that
    token, and no refresh call is started for it. *)
Theorem requests_after_refresh_use_new_token (w : World) (p : Promise) (status : Z)
    (data a rt : jsval) (endpoint : string) (r : nat) (o : jsobj)
    (Hreach : reachable w) (Hpending : refreshPromise w = Some p)
    (Hok : ok status = true)
    (Ha : GetV data "access_token" = Some a) (Hr : GetV data "refresh_token" = Some rt)
    (Hobj : heap w !! r = Some o) :
  let w1 := settle (pid p) (Response status (Some data)) w in
  let w2 := snd (request endpoint (Some r) w1) in
  net w2 = net w1 ++ [({| f_url := request_url endpoint o;
                          f_config := config_for a o |},
                       KFetch (fst (request endpoint (Some r) w1)) 0)]
  /\ refreshPromise w2 = None
  /\ outstanding_refreshes w2 = [].
Proof.
  pose proof (reachable_wf w Hreach) as Hwf.
  cbn zeta.
  destruct (settle_refresh_success w p status data a rt Hwf Hpending Hok Ha Hr)
    as (Ht & _ & _ & Hp1 & _).
  cbn zeta in Ht, Hp1.
  set (w1 := settle (pid p) (Response status (Some data)) w) in *.
  assert (heap w1 !! r = Some o) as Hobj1.
  { eapply prefix_lookup_Some; [exact Hobj | apply settle_heap_prefix]. }
  assert (deref r w1 = o) as Hd by (unfold deref; by rewrite Hobj1).
  assert (wf (snd (request endpoint (Some r) w1))) as Hwf2.
  { apply wf_request; [by apply lookup_lt_Some in Hobj1 | by apply wf_settle]. }
  pose proof (wf_refresh _ Hwf2) as Hout2.
  rewrite request_eq in *. cbn [fst snd] in *.
  cbn [net refreshPromise set_inflight set_net set_heap set_calls] in *.
  rewrite Hd, Ht in Hout2 |- *. rewrite Hp1 in Hout2.
  split; [done|]. split; [exact Hp1 | exact Hout2].
Qed.

Lemma requests_after_refresh_use_new_token_witness :
  let w1 := settle 2 (Response 200 (Some fresh_pair)) two_waiting in
  (reachable two_waiting
   /\ refreshPromise two_waiting = Some {| pid := 2; waiters := [0; 1] |})
  /\ refreshPromise (snd (request "/problems" (Some 0) w1)) = None
  /\ outstanding_refreshes (snd (request "/problems" (Some 0) w1)) = [].
Proof.
  intros w1.
  assert (refreshPromise two_waiting = Some {| pid := 2; waiters := [0; 1] |}) as Hp
    by (vm_compute; reflexivity).
  assert (heap two_waiting !! 0
          = Some [("method", JStr "GET"); ("params", JObj [("tag", JStr "dp")])])
    as Hobj by (vm_compute; reflexivity).
  destruct (requests_after_refresh_use_new_token two_waiting _ 200%Z fresh_pair
              (JStr "a1") (JStr "r1") "/problems" 0 _ reachable_two_waiting Hp
              eq_refl eq_refl eq_refl Hobj) as (_ & Hnone & Hout).
  split; [split; [exact reachable_two_waiting | exact Hp]|].
  split; [exact Hnone | exact Hout].
Defined.

(** X12: once a refresh has failed with a request waiting for it, the
    service holds no refresh token: nothing is pending or in flight for a
    refresh, no fetch went out for the failure, a later call of
    [refreshAccessToken] throws without any network call, and no later 401
    starts a refresh. *)
Theorem no_refresh_after_session_expiry (w : World) (p : Promise) (r : FetchResult)
    (e : Thrown) (rid : nat)
    (Hreach : reachable w) (Hpending : refreshPromise w = Some p)
    (Hfails : fst (refresh_chain r w) = Rejected e) (Hwaits : In rid (waiters p)) :
  let w' := settle (pid p) r w in
  refreshPromise w' = None /\ outstanding_refreshes w' = []
  /\ net w' = net w
  /\ refreshAccessToken w'
     = (RefreshThrows (Error "No refresh token available" None None), w')
  /\ (forall n r', starts_refresh n r' w' = false).
Proof.
  pose proof (reachable_wf w Hreach) as Hwf.
  assert (wf (settle (pid p) r w)) as Hwf' by by apply wf_settle.
  pose proof (wf_refresh _ Hwf') as Hout.
  cbn zeta. rewrite (settle_refresh w p r Hwf Hpending) in Hout |- *.
  remember (set_inflight (List.filter (fun i => negb (Nat.eqb (pid p) i)) (inflight w)) w)
    as w1 eqn:Hw1.
  assert (refreshPromise w1 = Some p) as Hp1 by (by subst w1).
  unfold refresh_settled in Hout |- *. rewrite Hp1 in Hout |- *.
  rewrite (refresh_chain_outcome r w w1) in Hfails.
  destruct (refresh_chain r w1) as [out w2] eqn:Hchain. cbn [fst] in Hfails. subst out.
  rewrite (refresh_chain_rejected _ _ _ _ Hchain) in Hout |- *.
  destruct (resume_rejected_all e (waiters p) (set_refreshPromise None w1))
    as (_ & Hnet & Hp' & Hclr).
  destruct Hclr as (_ & Hrt & _).
  { intros Hnil. rewrite Hnil in Hwaits. destruct Hwaits. }
  cbn zeta in *. rewrite Hp' in Hout.
  split; [exact Hp'|]. split; [exact Hout|].
  split; [rewrite Hnet; by subst w1|].
  split.
  - apply refreshAccessToken_no_token. by rewrite Hrt.
  - intros n r'. unfold starts_refresh. destruct r' as [reason|status body]; [done|].
    rewrite Hrt. apply andb_false_r.
Qed.

Lemma no_refresh_after_session_expiry_witness :
  (reachable two_waiting
   /\ refreshPromise two_waiting = Some {| pid := 2; waiters := [0; 1] |}
   /\ fst (refresh_chain (Response 401 None) two_waiting)
      = Rejected (Error "Token refresh failed" None None)
   /\ In 0 [0; 1])
  /\ refreshPromise (settle 2 (Response 401 None) two_waiting) = None
  /\ net (settle 2 (Response 401 None) two_waiting) = net two_waiting.
Proof.
  assert (refreshPromise two_waiting = Some {| pid := 2; waiters := [0; 1] |}) as Hp
    by (vm_compute; reflexivity).
  assert (fst (refresh_chain (Response 401 None) two_waiting)
          = Rejected (Error "Token refresh failed" None None)) as Hfails
    by (vm_compute; reflexivity).
  assert (In 0 [0; 1]) as Hin by (left; reflexivity).
  destruct (no_refresh_after_session_expiry two_waiting _ (Response 401 None) _ 0
              reachable_two_waiting Hp Hfails Hin) as (Hnone & _ & Hnet & _).
  split; [split; [exact reachable_two_waiting|split; [exact Hp|split; [exact Hfails | exact Hin]]]|].
  split; [exact Hnone | exact Hnet].
Defined.
